(** * data-populator.js: the reconciliation sync engine

    A shallow embedding of [withRetry], [LLMSource.getAccessStatuses],
    [upsertRecords] and [main] of data-populator.js, and the properties
    of the retrier, the oracle client, the batch loop and the reconciler.

    The program talks to two remote services.  Both are modelled as part
    of a [World] that the program threads through every call:
    - the oracle (the chat-completion endpoint) follows a script, a
      function from the number of the call to what that call does;
    - the store (the [psychedelic_access] table) is a list of rows, with
      a script of faults that says which store calls are rejected.
    Every call the program makes to either service is recorded in a
    trace, so that "no write was performed" is a statement about the
    trace and not only about the table.

    The route of server.js is embedded too, with a world of its own. *)

From Stdlib Require Import List ZArith String Ascii Bool Arith Lia.
From Stdlib Require DecimalString.
Import ListNotations.

Local Open Scope string_scope.
Local Open Scope list_scope.

(** ** JavaScript values *)

(** The values the program handles: what [JSON.parse] can return, and
    [undefined] for a property that is not there.  An object is the list
    of its own properties, each name once, in enumeration order, the
    order of [Object.values].  Numbers are the integral ones. *)
#[local] Unset Elimination Schemes.
Inductive JSValue : Type :=
| JUndefined
| JNull
| JBool (b : bool)
| JNum (n : Z)
| JStr (s : string)
| JArr (items : list JSValue)
| JObj (props : list (string * JSValue)).
#[local] Set Elimination Schemes.

(** [Array.isArray(v)] *)
Definition isArray (v : JSValue) : bool :=
  match v with JArr _ => true | _ => false end.

(** [a === b].  Primitives are compared by value; an array or an object
    is equal only to itself, and no two values met by this program are
    the same array or object (one comes from the oracle's reply, the
    other from the store's). *)
Definition strict_eqb (a b : JSValue) : bool :=
  match a, b with
  | JUndefined, JUndefined => true
  | JNull, JNull => true
  | JBool x, JBool y => Bool.eqb x y
  | JNum x, JNum y => Z.eqb x y
  | JStr x, JStr y => String.eqb x y
  | _, _ => false
  end.

(** [rec.key] for a [rec] that is neither [null] nor [undefined].  None
    of the names the program reads is a property of a prototype, so a
    primitive or an array has none of them. *)
Fixpoint lookup_prop (key : string) (props : list (string * JSValue)) : JSValue :=
  match props with
  | [] => JUndefined
  | (k, v) :: rest => if String.eqb k key then v else lookup_prop key rest
  end.

Definition get_prop (v : JSValue) (key : string) : JSValue :=
  match v with
  | JObj props => lookup_prop key props
  | _ => JUndefined
  end.

(** The characters of a string, each as a string of its own: the own
    enumerable properties of a string value. *)
Fixpoint chars (s : string) : list JSValue :=
  match s with
  | EmptyString => []
  | String c rest => JStr (String c EmptyString) :: chars rest
  end.

(** [Object.values(v)]; [None] when the call throws a [TypeError], which
    it does on [null] and [undefined]. *)
Definition Object_values (v : JSValue) : option (list JSValue) :=
  match v with
  | JUndefined | JNull => None
  | JBool _ | JNum _ => Some []
  | JStr s => Some (chars s)
  | JArr items => Some items
  | JObj props => Some (map snd props)
  end.

(** Whether [v] can be converted to text, as a template literal
    [`${v}`] does it; the conversion throws a [TypeError] when it
    cannot.  An object is converted by the first of its [toString] and
    [valueOf] that can be called and that gives a primitive: a parsed
    object that has a property named [toString] hides the one every
    object inherits behind a value that cannot be called, and the
    inherited [valueOf] gives the object back, so there is none.  An
    array is converted by converting its elements. *)
Fixpoint printable (v : JSValue) : bool :=
  match v with
  | JArr items => forallb printable items
  | JObj props => negb (existsb (fun p => String.eqb (fst p) "toString") props)
  | _ => true
  end.

(** ** Errors and results *)

Inductive JSError : Type :=
| ApiError (status : option Z) (message : string)
    (* thrown by the oracle's client; [status] may be undefined *)
| EmptyResponse
    (* Error("Empty response from LLM") *)
| ParseFailure (head : string)
    (* Error("Failed to parse LLM JSON: " + raw.slice(0, 200)) *)
| ExpectedArray (got : JSValue)
    (* Error("Expected array of records, got: " + JSON.stringify(parsed)) *)
| TypeError (what : string).
    (* thrown by the language itself *)

(** [err.status] *)
Definition err_status (err : JSError) : option Z :=
  match err with
  | ApiError status _ => status
  | _ => None
  end.

(** How a call ends: it returns, it throws, or the loop it runs was cut
    off by the bound of the model ([Unfinished]); the lemmas
    [withRetry_finishes] and [collect_finishes] show that the bounds used
    are never reached. *)
Inductive Result (A : Type) : Type :=
| Returned (a : A)
| Thrown (err : JSError)
| Unfinished.
Arguments Returned {A} a.
Arguments Thrown {A} err.
Arguments Unfinished {A}.

(** ** The world *)

Inductive Level : Type := INFO | WARN | ERROR.

(** The messages of [logWithTimestamp], by what they report. *)
Inductive Message : Type :=
| MsgStarted
| MsgFinished
| MsgQuerying (model : string) (substances countries batchNo : nat)
| MsgRetry (attempt : nat) (delay : Z) (err : JSError)
| MsgFetchError (substance country_code : JSValue) (message : string)
| MsgInsertError (substance country_code : JSValue) (message : string)
| MsgInserted (substance country_code access_status : JSValue)
| MsgUpdateError (substance country_code : JSValue) (message : string)
| MsgUpdated (substance country_code old_status access_status : JSValue)
| MsgSkipped (substance country_code : JSValue)
| MsgFatal (err : JSError).

Record LogEntry : Type := mkLog {
  log_ts : Z;
  log_level : Level;
  log_msg : Message }.

(** One request to the oracle: the model and the two lists the prompt is
    built from. *)
Record Request : Type := mkRequest {
  req_model : string;
  req_substances : list string;
  req_countries : list string }.

(** What one call to the oracle does: it answers, and
    [response.choices[0]?.message?.content] is [content] ([None] when it
    is [null] or undefined), or it throws. *)
Inductive OracleOutcome : Type :=
| Replies (content : option string)
| Fails (status : option Z) (message : string).

(** A row of [psychedelic_access]. *)
Record Row : Type := mkRow {
  row_id : Z;
  row_substance : JSValue;
  row_country_code : JSValue;
  row_access_status : JSValue;
  row_updated_at : Z }.

Inductive StoreCall : Type :=
| Select (substance country_code : JSValue)
| Insert (substance country_code access_status : JSValue) (updated_at : Z)
| Update (id : Z) (access_status : JSValue) (updated_at : Z).

Record World : Type := mkWorld {
  clock : Z;                            (* the time, in ms *)
  log : list LogEntry;                  (* what was logged, oldest first *)
  sleeps : list Z;                      (* every delay passed to [wait] *)
  oracle : nat -> OracleOutcome;        (* script: what the n-th call does *)
  oracle_requests : list Request;       (* trace of the calls made *)
  table : list Row;                     (* the persisted rows *)
  next_id : Z;                          (* the id the store gives next *)
  store_faults : nat -> option string;  (* script: the n-th call's error *)
  store_calls : list StoreCall }.       (* trace of the calls made *)

Definition set_clock (w : World) (c : Z) : World :=
  mkWorld c (log w) (sleeps w) (oracle w) (oracle_requests w)
          (table w) (next_id w) (store_faults w) (store_calls w).
Definition set_log (w : World) (l : list LogEntry) : World :=
  mkWorld (clock w) l (sleeps w) (oracle w) (oracle_requests w)
          (table w) (next_id w) (store_faults w) (store_calls w).
Definition set_sleeps (w : World) (s : list Z) : World :=
  mkWorld (clock w) (log w) s (oracle w) (oracle_requests w)
          (table w) (next_id w) (store_faults w) (store_calls w).
Definition set_oracle_requests (w : World) (r : list Request) : World :=
  mkWorld (clock w) (log w) (sleeps w) (oracle w) r
          (table w) (next_id w) (store_faults w) (store_calls w).
Definition set_table (w : World) (t : list Row) : World :=
  mkWorld (clock w) (log w) (sleeps w) (oracle w) (oracle_requests w)
          t (next_id w) (store_faults w) (store_calls w).
Definition set_next_id (w : World) (n : Z) : World :=
  mkWorld (clock w) (log w) (sleeps w) (oracle w) (oracle_requests w)
          (table w) n (store_faults w) (store_calls w).
Definition set_store_calls (w : World) (c : list StoreCall) : World :=
  mkWorld (clock w) (log w) (sleeps w) (oracle w) (oracle_requests w)
          (table w) (next_id w) (store_faults w) c.

(** ** The monad of the program: state and exceptions *)

Definition M (A : Type) : Type := World -> Result A * World.

Definition ret {A} (a : A) : M A := fun w => (Returned a, w).

Definition throw {A} (err : JSError) : M A := fun w => (Thrown err, w).

Definition bind {A B} (m : M A) (k : A -> M B) : M B :=
  fun w =>
    match m w with
    | (Returned a, w1) => k a w1
    | (Thrown err, w1) => (Thrown err, w1)
    | (Unfinished, w1) => (Unfinished, w1)
    end.

Declare Scope js_scope.
Delimit Scope js_scope with js.
Notation "x <- m ;; k" := (bind m (fun x => k))
  (at level 61, m at next level, right associativity) : js_scope.
Notation "m ;; k" := (bind m (fun _ => k))
  (at level 61, right associativity) : js_scope.
Local Open Scope js_scope.

(** [new Date()], read off the clock. *)
Definition now : M Z := fun w => (Returned (clock w), w).

(** [logWithTimestamp(level, msg)] *)
Definition logWithTimestamp (level : Level) (msg : Message) : M unit :=
  fun w => (Returned tt, set_log w (log w ++ [mkLog (clock w) level msg])).

(** [await wait(delay)]: the delay is recorded and the clock moves on. *)
Definition wait (delay : Z) : M unit :=
  fun w => (Returned tt,
            set_sleeps (set_clock w (clock w + delay)%Z) (sleeps w ++ [delay])).

(** [logWithTimestamp(level, `...${v}...`)], for the values [fields] that
    the template formats: the text is built before the call, and
    building it throws when one of the values cannot be converted. *)
Definition logFormatted (level : Level) (msg : Message) (fields : list JSValue)
  : M unit :=
  if forallb printable fields then logWithTimestamp level msg
  else throw (TypeError "Cannot convert object to primitive value").

(** ** Backoff retrier *)

(** [err.status === 429 || (err.status && err.status >= 500)] *)
Definition retryable (err : JSError) : bool :=
  match err_status err with
  | Some s => (s =? 429)%Z || (negb (s =? 0)%Z && (500 <=? s)%Z)
  | None => false
  end.

(** [Math.min(2000 * 2 ** (attempt - 1), 30000)] *)
Definition retryDelay (attempt : nat) : Z :=
  Z.min (2000 * 2 ^ (Z.of_nat attempt - 1)) 30000.

(** The [while (true)] of [withRetry], from the value [attempt] has when
    an iteration starts.  [fuel] bounds the number of iterations. *)
Fixpoint withRetry_loop {A} (fuel : nat) (fn : M A) (maxRetries attempt : nat)
  : M A :=
  fun w =>
    match fuel with
    | O => (Unfinished, w)
    | S fuel' =>
        match fn w with
        | (Thrown err, w1) =>
            let attempt := S attempt in
            if (maxRetries <? attempt)%nat then (Thrown err, w1)
            else if retryable err then
              let delay := retryDelay attempt in
              (logWithTimestamp WARN (MsgRetry attempt delay err) ;;
               wait delay ;;
               withRetry_loop fuel' fn maxRetries attempt) w1
            else (Thrown err, w1)
        | done => done
        end
    end.

(** [withRetry(fn, maxRetries)].  The loop runs at most [maxRetries + 1]
    times, since [attempt] grows by one each time it goes round. *)
Definition withRetry {A} (fn : M A) (maxRetries : nat) : M A :=
  withRetry_loop (S maxRetries) fn maxRetries 0.

(** The default of the parameter [maxRetries]. *)
Definition default_maxRetries : nat := 5.

(** ** Oracle client *)

(** The call wrapped by [withRetry] in [getAccessStatuses]:
    [openai.chat.completions.create({...})].  The call is recorded and
    does what the script says for a call of its number. *)
Definition createCompletion (req : Request) : M (option string) :=
  fun w =>
    let w1 := set_oracle_requests w (oracle_requests w ++ [req]) in
    match oracle w (List.length (oracle_requests w)) with
    | Replies content => (Returned content, w1)
    | Fails status message => (Thrown (ApiError status message), w1)
    end.

(** From a [Result] into the monad. *)
Definition lift {A} (r : Result A) : M A := fun w => (r, w).

Section OracleClient.

(** [JSON.parse]: [None] when it throws. *)
Variable JSON_parse : string -> option JSValue.

(** Lines 90 to 109 of [getAccessStatuses]: from the content of the
    reply to the array of records. *)
Definition extractRecords (raw : option string) : Result (list JSValue) :=
  match raw with
  | None => Thrown EmptyResponse
  | Some raw =>
      if String.eqb raw "" then Thrown EmptyResponse
      else
        match JSON_parse raw with
        | None => Thrown (ParseFailure (substring 0 200 raw))
        | Some parsed =>
            if negb (isArray parsed) then
              match Object_values parsed with
              | None => Thrown (TypeError "Cannot convert undefined or null to object")
              | Some values =>
                  match find isArray values with
                  | Some (JArr firstArray) => Returned firstArray
                  | _ => Thrown (ExpectedArray parsed)
                  end
              end
            else
              match parsed with
              | JArr items => Returned items
              | _ => Thrown (ExpectedArray parsed)
              end
        end
  end.

(** [LLMSource.getAccessStatuses(substances, countries)], for an
    [LLMSource] built with [model]. *)
Definition getAccessStatuses (model : string) (substances countries : list string)
  : M (list JSValue) :=
  response <- withRetry (createCompletion (mkRequest model substances countries))
                        default_maxRetries ;;
  lift (extractRecords response).

End OracleClient.

(** ** The store *)

(** The client of the store does not throw: every call resolves to
    [{ data, error }], and a call the store rejects has its [error]
    set.  Columns keep the values they are sent. *)

(** [.eq(column, value)]: a row passes when its column holds the value
    sent.  A value that is missing or [null] matches no row: SQL's NULL
    is equal to nothing. *)
Definition eq_filter (sent column : JSValue) : bool :=
  match sent with
  | JUndefined | JNull => false
  | _ => strict_eqb column sent
  end.

(** [.eq("substance", substance).eq("country_code", country_code)] *)
Definition row_matches (substance country_code : JSValue) (r : Row) : bool :=
  eq_filter substance (row_substance r) && eq_filter country_code (row_country_code r).

(** The result [{ data, error }] of a store call that reads one row. *)
Definition Single : Type := (option Row * option string)%type.

(** [.maybeSingle()]: no row gives [data: null], one row gives that row,
    more rows are an error. *)
Definition maybeSingle (rows : list Row) : Single :=
  match rows with
  | [] => (None, None)
  | [r] => (Some r, None)
  | _ => (None, Some "JSON object requested, multiple (or no) rows returned")
  end.

(** What the store answers to the lookup of [upsertRecords], in a
    world [w]. *)
Definition select_result (w : World) (substance country_code : JSValue) : Single :=
  match store_faults w (List.length (store_calls w)) with
  | Some message => (None, Some message)
  | None => maybeSingle (filter (row_matches substance country_code) (table w))
  end.

(** [supabase.from("psychedelic_access").select("*").eq(...).eq(...).maybeSingle()] *)
Definition store_select (substance country_code : JSValue) : M Single :=
  fun w =>
    (Returned (select_result w substance country_code),
     set_store_calls w (store_calls w ++ [Select substance country_code])).

(** A value as the column of a new row keeps it: a property that is
    [undefined] is left out of the insert, and the column of the new row
    is NULL. *)
Definition to_column (v : JSValue) : JSValue :=
  match v with
  | JUndefined => JNull
  | _ => v
  end.

(** [supabase.from("psychedelic_access").insert([{...}])]; the result is
    the [error] of the call. *)
Definition store_insert (substance country_code access_status : JSValue)
           (updated_at : Z) : M (option string) :=
  fun w =>
    let w1 := set_store_calls w
                (store_calls w ++ [Insert substance country_code access_status updated_at]) in
    match store_faults w (List.length (store_calls w)) with
    | Some message => (Returned (Some message), w1)
    | None =>
        let r := mkRow (next_id w) (to_column substance) (to_column country_code)
                       (to_column access_status) updated_at in
        (Returned None, set_next_id (set_table w1 (table w ++ [r])) (next_id w + 1)%Z)
    end.

(** The status of a row after an update that sends [access_status]: a
    property that is [undefined] is left out of the request, and the
    column keeps what it holds. *)
Definition updated_status (access_status old : JSValue) : JSValue :=
  match access_status with
  | JUndefined => old
  | _ => access_status
  end.

(** The rows after [.update({ access_status, updated_at }).eq("id", id)]. *)
Definition update_row (id : Z) (access_status : JSValue) (updated_at : Z) (r : Row) : Row :=
  if (row_id r =? id)%Z
  then mkRow (row_id r) (row_substance r) (row_country_code r)
             (updated_status access_status (row_access_status r)) updated_at
  else r.

(** [supabase.from("psychedelic_access").update({...}).eq("id", id)] *)
Definition store_update (id : Z) (access_status : JSValue) (updated_at : Z)
  : M (option string) :=
  fun w =>
    let w1 := set_store_calls w
                (store_calls w ++ [Update id access_status updated_at]) in
    match store_faults w (List.length (store_calls w)) with
    | Some message => (Returned (Some message), w1)
    | None =>
        (Returned None,
         set_table w1 (map (update_row id access_status updated_at) (table w)))
    end.

(** ** Reconciler *)

(** Lines 118 to 179: what the loop of [upsertRecords] does with the
    three fields of a record. *)
Definition upsertFields (substance country_code access_status : JSValue) : M unit :=
  found <- store_select substance country_code ;;
  match found with
  | (_, Some message) =>
      logFormatted ERROR (MsgFetchError substance country_code message)
                   [substance; country_code]
  | (None, None) =>
      updated_at <- now ;;
      insertErr <- store_insert substance country_code access_status updated_at ;;
      match insertErr with
      | Some message =>
          logFormatted ERROR (MsgInsertError substance country_code message)
                       [substance; country_code]
      | None =>
          logFormatted INFO (MsgInserted substance country_code access_status)
                       [substance; country_code; access_status]
      end
  | (Some existing, None) =>
      if negb (strict_eqb (row_access_status existing) access_status) then
        updated_at <- now ;;
        updateErr <- store_update (row_id existing) access_status updated_at ;;
        match updateErr with
        | Some message =>
            logFormatted ERROR (MsgUpdateError substance country_code message)
                         [substance; country_code]
        | None =>
            logFormatted INFO
              (MsgUpdated substance country_code (row_access_status existing)
                          access_status)
              [substance; country_code; row_access_status existing; access_status]
        end
      else
        logFormatted INFO (MsgSkipped substance country_code)
                     [substance; country_code]
  end.

(** [v] is [null] or [undefined]. *)
Definition nullish (v : JSValue) : bool :=
  match v with
  | JUndefined | JNull => true
  | _ => false
  end.

(** The three fields [const { substance, country_code, access_status } = rec]
    binds, for a [rec] that can be destructured. *)
Definition substance_of (rec : JSValue) : JSValue := get_prop rec "substance".
Definition country_code_of (rec : JSValue) : JSValue := get_prop rec "country_code".
Definition access_status_of (rec : JSValue) : JSValue := get_prop rec "access_status".

(** The body of the loop of [upsertRecords], for one [rec].  Destructuring
    [null] or [undefined] throws. *)
Definition upsertRecord (rec : JSValue) : M unit :=
  if nullish rec then
    throw (TypeError "Cannot destructure property 'substance'")
  else
    upsertFields (substance_of rec) (country_code_of rec) (access_status_of rec).

(** [upsertRecords(records)] *)
Fixpoint upsertRecords (records : list JSValue) : M unit :=
  match records with
  | [] => ret tt
  | rec :: rest => upsertRecord rec ;; upsertRecords rest
  end.

(** The worlds the reconciler leaves: a store call recorded, a line
    logged, a row written. *)
Definition called (c : StoreCall) (w : World) : World :=
  set_store_calls w (store_calls w ++ [c]).

Definition logged (level : Level) (msg : Message) (w : World) : World :=
  set_log w (log w ++ [mkLog (clock w) level msg]).

Definition new_row (w : World) (substance country_code access_status : JSValue) : Row :=
  mkRow (next_id w) (to_column substance) (to_column country_code)
        (to_column access_status) (clock w).

Definition inserted (substance country_code access_status : JSValue) (w : World)
  : World :=
  set_next_id
    (set_table w (table w ++ [new_row w substance country_code access_status]))
    (next_id w + 1)%Z.

Definition updated (id : Z) (access_status : JSValue) (w : World) : World :=
  set_table w (map (update_row id access_status (clock w)) (table w)).

(** ** What reconciling twice is stated over *)

(** A record whose subject, scope and status are all text. *)
Definition is_text (v : JSValue) : bool :=
  match v with JStr _ => true | _ => false end.

Definition canonical (rec : JSValue) : bool :=
  is_text (substance_of rec) && is_text (country_code_of rec)
  && is_text (access_status_of rec).

(** Records of one (subject, scope) key agree on the status. *)
Definition consistent (records : list JSValue) : Prop :=
  forall r1 r2,
    In r1 records -> In r2 records ->
    substance_of r1 = substance_of r2 ->
    country_code_of r1 = country_code_of r2 ->
    access_status_of r1 = access_status_of r2.

(** The store rejects no call. *)
Definition reliable (w : World) : Prop :=
  forall n, store_faults w n = None.

(** The table as the store keeps it: ids are distinct and older than the
    next one, and there is at most one row for a (subject, scope) key. *)
Definition store_wf (w : World) : Prop :=
  NoDup (map row_id (table w)) /\
  (forall r, In r (table w) -> (row_id r < next_id w)%Z) /\
  (forall s c, List.length (filter (row_matches s c) (table w)) <= 1).

(** The table has exactly one row for the key of [rec], and it holds the
    status of [rec]. *)
Definition settled (w : World) (rec : JSValue) : Prop :=
  exists row,
    filter (row_matches (substance_of rec) (country_code_of rec)) (table w) = [row] /\
    row_access_status row = access_status_of rec.

(** The rows of the table hold statuses that can be converted to text. *)
Definition printable_statuses (w : World) : Prop :=
  forall r, In r (table w) -> printable (row_access_status r) = true.

(** The three fields of a record can be converted to text. *)
Definition printable_record (rec : JSValue) : bool :=
  printable (substance_of rec) && printable (country_code_of rec)
  && printable (access_status_of rec).

(** The lookup and the log line of a record that needs no write. *)
Definition lookup_of (rec : JSValue) : StoreCall :=
  Select (substance_of rec) (country_code_of rec).

Definition noop_of (rec : JSValue) : Message :=
  MsgSkipped (substance_of rec) (country_code_of rec).

(** ** Batches and the run *)

(** [l.slice(start, stop)] for indices that are natural numbers. *)
Definition slice {A} (l : list A) (start stop : nat) : list A :=
  firstn (stop - start) (skipn start l).

(** The batches of the loop of [main], in the order the loop makes them:
    the values [batch] takes for [i], [i + batchSize], and so on while
    [i < COUNTRIES.length].  [fuel] bounds the number of iterations;
    [None] when it runs out. *)
Fixpoint planBatches {A} (fuel : nat) (COUNTRIES : list A) (batchSize i : nat)
  : option (list (list A)) :=
  match fuel with
  | O => None
  | S fuel' =>
      if (i <? List.length COUNTRIES)%nat then
        match planBatches fuel' COUNTRIES batchSize (i + batchSize) with
        | Some rest => Some (slice COUNTRIES i (i + batchSize) :: rest)
        | None => None
        end
      else Some []
  end.

Section Run.

Variable JSON_parse : string -> option JSValue.

(** The catalogs, the batch size and the model of [main]. *)
Variable model : string.
Variable SUBSTANCES COUNTRIES : list string.
Variable batchSize : nat.

(** The [for] loop of [main], from the values [i] and [allResults] have
    when an iteration starts.  (The batch number logged is
    [i / batchSize + 1]; for a positive [batchSize] and the [i] of the
    loop the division is exact.) *)
Fixpoint collect_loop (fuel : nat) (i : nat) (allResults : list JSValue)
  : M (list JSValue) :=
  match fuel with
  | O => fun w => (Unfinished, w)
  | S fuel' =>
      if (i <? List.length COUNTRIES)%nat then
        let batch := slice COUNTRIES i (i + batchSize) in
        logWithTimestamp INFO
          (MsgQuerying model (List.length SUBSTANCES) (List.length batch)
                       (i / batchSize + 1)) ;;
        results <- getAccessStatuses JSON_parse model SUBSTANCES batch ;;
        let allResults := allResults ++ results in
        wait 2000 ;;
        collect_loop fuel' (i + batchSize) allResults
      else ret allResults
  end.

(** The loop of [main] as a whole.  Each iteration moves [i] forward, so
    there are at most [COUNTRIES.length] of them when [batchSize] is
    positive. *)
Definition collect : M (list JSValue) :=
  collect_loop (S (List.length COUNTRIES)) 0 [].

(** [main()] *)
Definition main_with : M unit :=
  logWithTimestamp INFO MsgStarted ;;
  allResults <- collect ;;
  upsertRecords allResults ;;
  logWithTimestamp INFO MsgFinished.

(** Querying a given list of batches one after the other, as the
    orchestrator is described: log, query, accumulate, pause.  Used to
    state that the loop of [main] walks the batches of [planBatches]. *)
Fixpoint queryBatches (batches : list (list string)) (batchNo : nat)
         (allResults : list JSValue) : M (list JSValue) :=
  match batches with
  | [] => ret allResults
  | batch :: rest =>
      logWithTimestamp INFO
        (MsgQuerying model (List.length SUBSTANCES) (List.length batch) batchNo) ;;
      results <- getAccessStatuses JSON_parse model SUBSTANCES batch ;;
      wait 2000 ;;
      queryBatches rest (S batchNo) (allResults ++ results)
  end.

End Run.

(** How the process ends. *)
Inductive Exit : Type :=
| ExitsNormally
| ExitsWith (code : Z)
| NeverExits.

(** [main().catch((err) => { logWithTimestamp("ERROR", ...); process.exit(1); })] *)
Definition run (main : M unit) (w : World) : Exit * World :=
  match main w with
  | (Returned _, w1) => (ExitsNormally, w1)
  | (Thrown err, w1) =>
      (ExitsWith 1, snd (logWithTimestamp ERROR (MsgFatal err) w1))
  | (Unfinished, w1) => (NeverExits, w1)
  end.

(** The constants of the program. *)
Definition SUBSTANCES : list string :=
  ["Ketamine"; "MDMA"; "Psilocybin"; "Lysergic Acid Diethylamide"].

Definition COUNTRIES : list string :=
  [
   "AF"; "AL"; "DZ"; "AD"; "AO"; "AG"; "AR"; "AM"; "AU"; "AT"; "AZ"; "BS";
   "BH"; "BD"; "BB"; "BY"; "BE"; "BZ"; "BJ"; "BT"; "BO"; "BA"; "BW"; "BR";
   "BN"; "BG"; "BF"; "BI";
   "CV"; "KH"; "CM"; "CA"; "CF"; "TD"; "CL"; "CN"; "CO"; "KM"; "CD"; "CG";
   "CR"; "CI"; "HR"; "CU"; "CY"; "CZ"; "DK"; "DJ"; "DM"; "DO"; "EC"; "EG";
   "SV"; "GQ"; "ER"; "EE"; "SZ";
   "ET"; "FJ"; "FI"; "FR"; "GA"; "GM"; "GE"; "DE"; "GH"; "GR"; "GD"; "GT";
   "GN"; "GW"; "GY"; "HT"; "HN"; "HU"; "IS"; "IN"; "ID"; "IR"; "IQ"; "IE";
   "IL"; "IT"; "JM"; "JP"; "JO";
   "KZ"; "KE"; "KI"; "KP"; "KR"; "KW"; "KG"; "LA"; "LV"; "LB"; "LS"; "LR";
   "LY"; "LI"; "LT"; "LU"; "MG"; "MW"; "MY"; "MV"; "ML"; "MT"; "MH"; "MR";
   "MU"; "MX"; "FM"; "MD"; "MC";
   "MN"; "ME"; "MA"; "MZ"; "MM"; "NA"; "NR"; "NP"; "NL"; "NZ"; "NI"; "NE";
   "NG"; "MK"; "NO"; "OM"; "PK"; "PW"; "PS"; "PA"; "PG"; "PY"; "PE"; "PH";
   "PL"; "PT"; "QA"; "RO"; "RU";
   "RW"; "KN"; "LC"; "VC"; "WS"; "SM"; "ST"; "SA"; "SN"; "RS"; "SC"; "SL";
   "SG"; "SK"; "SI"; "SB"; "SO"; "ZA"; "SS"; "ES"; "LK"; "SD"; "SR"; "SE";
   "CH"; "SY"; "TJ"; "TZ"; "TH";
   "TL"; "TG"; "TO"; "TT"; "TN"; "TR"; "TM"; "TV"; "UG"; "UA"; "AE"; "GB";
   "US"; "UY"; "UZ"; "VU"; "VE"; "VN"; "YE"; "ZM"; "ZW" ].

Definition main (JSON_parse : string -> option JSValue) : M unit :=
  main_with JSON_parse "gpt-4o-mini" SUBSTANCES COUNTRIES 25.

(** ** What the run is stated over *)

(** The store is as it was: the same table, and no call made. *)
Definition store_untouched (w w' : World) : Prop :=
  store_calls w' = store_calls w /\ table w' = table w /\
  next_id w' = next_id w.

Definition keeps_store {A} (m : M A) : Prop :=
  forall w, store_untouched w (snd (m w)).

(** A computation that ends, by returning or by throwing: the bound of
    the model is not what stops it. *)
Definition finishes {A} (m : M A) : Prop :=
  forall w, fst (m w) <> Unfinished.

(** ** Worlds and inputs to run the program on *)

(** A store that rejects nothing. *)
Definition no_faults : nat -> option string := fun _ => None.

(** An oracle that is rate limited for ever. *)
Definition always_429 : nat -> OracleOutcome :=
  fun _ => Fails (Some 429%Z) "Too Many Requests".

(** An oracle that is rate limited three times and then answers. *)
Definition thrice_429 (content : option string) : nat -> OracleOutcome :=
  fun n => if (n <? 3)%nat then Fails (Some 429%Z) "Too Many Requests"
           else Replies content.

(** An oracle that refuses the request. *)
Definition always_400 : nat -> OracleOutcome :=
  fun _ => Fails (Some 400%Z) "Bad Request".

(** An oracle that always answers the same. *)
Definition always_replies (content : option string) : nat -> OracleOutcome :=
  fun _ => Replies content.

(** The world of a first run: time 0, nothing logged, an empty table. *)
Definition fresh (oracle : nat -> OracleOutcome)
           (store_faults : nat -> option string) : World :=
  mkWorld 0 [] [] oracle [] [] 1 store_faults [].

Definition ketamine_request : Request :=
  mkRequest "gpt-4o-mini" ["Ketamine"] ["US"; "CA"].

(** The record of the end-to-end example, as a value and as JSON text
    (a double quote is character 34). *)
Definition ketamine_us_banned : JSValue :=
  JObj [("substance", JStr "Ketamine"); ("country_code", JStr "US");
        ("access_status", JStr "Banned")].

Definition quoted (s : string) : string :=
  String (ascii_of_nat 34) (s ++ String (ascii_of_nat 34) EmptyString).

Definition bare_text : string :=
  "[{" ++ quoted "substance" ++ ":" ++ quoted "Ketamine" ++ ","
       ++ quoted "country_code" ++ ":" ++ quoted "US" ++ ","
       ++ quoted "access_status" ++ ":" ++ quoted "Banned" ++ "}]".

Definition wrapped_text : string :=
  "{" ++ quoted "results" ++ ":" ++ bare_text ++ "}".

(** A [JSON.parse] for the few texts the examples use; on them it agrees
    with the real one. *)
Definition parse_sample (raw : string) : option JSValue :=
  if String.eqb raw "null" then Some JNull
  else if String.eqb raw bare_text then Some (JArr [ketamine_us_banned])
  else if String.eqb raw wrapped_text
       then Some (JObj [("results", JArr [ketamine_us_banned])])
  else None.

(** The immediate child values of a value; a primitive has none. *)
Definition children (v : JSValue) : list JSValue :=
  match v with
  | JObj props => map snd props
  | JArr items => items
  | _ => []
  end.

(** The reply handling of the oracle client as it is described: no
    content is an empty-reply error; content that does not parse is a
    malformed-JSON error; a sequence is returned as it is; of any other
    value the first immediate child that is a sequence is returned, and
    when there is none the error is the unexpected-shape error. *)
Definition replyHandling_described (JSON_parse : string -> option JSValue)
           (raw : option string) : Result (list JSValue) :=
  match raw with
  | None => Thrown EmptyResponse
  | Some raw =>
      if String.eqb raw "" then Thrown EmptyResponse
      else
        match JSON_parse raw with
        | None => Thrown (ParseFailure (substring 0 200 raw))
        | Some (JArr items) => Returned items
        | Some parsed =>
            match find isArray (children parsed) with
            | Some (JArr firstArray) => Returned firstArray
            | _ => Thrown (ExpectedArray parsed)
            end
        end
  end.

(** A store whose call number [n] is rejected with [message]. *)
Definition fault_at (n : nat) (message : string) : nat -> option string :=
  fun k => if (k =? n)%nat then Some message else None.

(** The world of a later run: a table that already has [rows]. *)
Definition stocked (rows : list Row) (store_faults : nat -> option string) : World :=
  mkWorld 5000 [] [] (always_replies None) [] rows 10 store_faults [].

Definition ketamine_us (id : Z) (access_status : string) : Row :=
  mkRow id (JStr "Ketamine") (JStr "US") (JStr access_status) 0.

Definition ketamine_us_approved : JSValue :=
  JObj [("substance", JStr "Ketamine"); ("country_code", JStr "US");
        ("access_status", JStr "Approved Medical Use")].

Definition mdma_ca_unknown : JSValue :=
  JObj [("substance", JStr "MDMA"); ("country_code", JStr "CA");
        ("access_status", JStr "Unknown")].

(** A record whose subject is an object that cannot be converted to
    text, and a record without a status. *)
Definition opaque : JSValue := JObj [("toString", JNum 1)].


Definition ketamine_us_opaque_status : JSValue :=
  JObj [("substance", JStr "Ketamine"); ("country_code", JStr "US");
        ("access_status", opaque)].

Definition ketamine_us_no_status : JSValue :=
  JObj [("substance", JStr "Ketamine"); ("country_code", JStr "US")].

(** A record without its subject. *)
Definition us_banned_no_substance : JSValue :=
  JObj [("country_code", JStr "US"); ("access_status", JStr "Banned")].

(** An oracle that answers [content] to its first [n] calls and refuses
    every call after them. *)
Definition refuses_after (n : nat) (content : option string) : nat -> OracleOutcome :=
  fun k => if (k <? n)%nat then Replies content else Fails (Some 400%Z) "Bad Request".

(** * server.js: the route [/api/search-substance] *)

(** The route asks the oracle about one substance in every country and
    posts what it answers to the store in one request.  It has its own
    world: a script and a trace for the oracle, a script and a trace for
    the store's REST endpoint, and the console. *)

(** [!v] *)
Definition falsy (v : JSValue) : bool :=
  match v with
  | JUndefined | JNull => true
  | JBool b => negb b
  | JNum n => (n =? 0)%Z
  | JStr s => String.eqb s ""
  | JArr _ | JObj _ => false
  end.

(** The name of the property at index [i] of an array or a string. *)
Definition index_key (i : nat) : string :=
  DecimalString.NilZero.string_of_uint (Nat.to_uint i).

Fixpoint indexed (i : nat) (values : list JSValue) : list (string * JSValue) :=
  match values with
  | [] => []
  | v :: rest => (index_key i, v) :: indexed (S i) rest
  end.

(** [Object.entries(v)]; [None] when the call throws a [TypeError]. *)
Definition Object_entries (v : JSValue) : option (list (string * JSValue)) :=
  match v with
  | JUndefined | JNull => None
  | JBool _ | JNum _ => Some []
  | JStr s => Some (indexed 0 (chars s))
  | JArr items => Some (indexed 0 items)
  | JObj props => Some props
  end.

(** [err.message] *)
Definition err_message (err : JSError) : string :=
  match err with
  | ApiError _ message => message
  | EmptyResponse => "Empty response from LLM"
  | ParseFailure head => "Failed to parse LLM JSON: " ++ head
  | ExpectedArray _ => "Expected array of records"
  | TypeError what => what
  end.

(** One object of the array the route posts. *)
Record PostedRow : Type := mkPosted {
  posted_substance : JSValue;
  posted_country_code : string;
  posted_access_status : JSValue }.

(** What the [fetch] to the store's REST endpoint does: it resolves with
    [ok], it resolves without [ok] and with a body of [text], or it
    rejects. *)
Inductive PostOutcome : Type :=
| PostOk
| PostRejected (text : string)
| PostThrows (message : string).

Inductive ConsoleLine : Type :=
| ConsoleParseFailure (content : option string)
| ConsoleResult (parsed : JSValue)
| ConsoleStoreError (text : string)
| ConsoleError (err : JSError).

(** [res.status(status).json(body)] *)
Inductive ResponseBody : Type :=
| ErrorBody (error : string) (details : option string)
| SuccessBody (inserted : nat).

Record Response : Type := mkResponse {
  status : Z;
  body : ResponseBody }.

Record ServerWorld : Type := mkServer {
  sv_oracle : nat -> OracleOutcome;    (* script: what the n-th call does *)
  sv_asked : list JSValue;             (* the substance of each call made *)
  sv_store : nat -> PostOutcome;       (* script: what the n-th POST does *)
  sv_posted : list (list PostedRow);   (* the body of each POST made *)
  sv_console : list ConsoleLine }.

Definition ask (substance : JSValue) (sw : ServerWorld) : ServerWorld :=
  mkServer (sv_oracle sw) (sv_asked sw ++ [substance]) (sv_store sw)
           (sv_posted sw) (sv_console sw).

Definition post (rows : list PostedRow) (sw : ServerWorld) : ServerWorld :=
  mkServer (sv_oracle sw) (sv_asked sw) (sv_store sw)
           (sv_posted sw ++ [rows]) (sv_console sw).

Definition console (line : ConsoleLine) (sw : ServerWorld) : ServerWorld :=
  mkServer (sv_oracle sw) (sv_asked sw) (sv_store sw)
           (sv_posted sw) (sv_console sw ++ [line]).

(** The [catch (err)] of the route. *)
Definition server_error (err : JSError) (sw : ServerWorld)
  : Result Response * ServerWorld :=
  (Returned (mkResponse 500 (ErrorBody "Server error" (Some (err_message err)))),
   console (ConsoleError err) sw).

(** [Object.entries(parsed).map(([country_code, access_status]) =>
    ({ substance, country_code, access_status }))] *)
Definition rows_of (substance : JSValue) (entries : list (string * JSValue))
  : list PostedRow :=
  map (fun entry => mkPosted substance (fst entry) (snd entry)) entries.

(** The handler of [app.post("/api/search-substance", ...)], on the body
    of the request.  A content of [null] reaches [JSON.parse] as the
    text [null]. *)
Definition searchSubstance (JSON_parse : string -> option JSValue)
           (req_body : JSValue) (sw : ServerWorld)
  : Result Response * ServerWorld :=
  if nullish req_body then
    (Thrown (TypeError "Cannot destructure property 'substance'"), sw)
  else
    let substance := get_prop req_body "substance" in
    if falsy substance then
      (Returned (mkResponse 400 (ErrorBody "Missing substance" None)), sw)
    else if negb (printable substance) then
      (* the prompt, a template literal over [substance], cannot be built *)
      server_error (TypeError "Cannot convert object to primitive value") sw
    else
      let sw1 := ask substance sw in
      match sv_oracle sw (List.length (sv_asked sw)) with
      | Fails status message => server_error (ApiError status message) sw1
      | Replies content =>
          let text := match content with Some raw => raw | None => "null" end in
          match JSON_parse text with
          | None =>
              (Returned (mkResponse 500 (ErrorBody "Invalid JSON from OpenAI" None)),
               console (ConsoleParseFailure content) sw1)
          | Some parsed =>
              let sw2 := console (ConsoleResult parsed) sw1 in
              match Object_entries parsed with
              | None =>
                  server_error
                    (TypeError "Cannot convert undefined or null to object") sw2
              | Some entries =>
                  let rows := rows_of substance entries in
                  let sw3 := post rows sw2 in
                  match sv_store sw (List.length (sv_posted sw)) with
                  | PostThrows message =>
                      server_error (TypeError message) sw3
                  | PostRejected text =>
                      (Returned
                         (mkResponse 500
                            (ErrorBody "Failed to upsert to Supabase" (Some text))),
                       console (ConsoleStoreError text) sw3)
                  | PostOk =>
                      (Returned (mkResponse 200 (SuccessBody (List.length rows))),
                       sw3)
                  end
              end
          end
      end.

(** A server that has not been asked anything yet. *)
Definition idle (oracle : nat -> OracleOutcome) (store : nat -> PostOutcome)
  : ServerWorld :=
  mkServer oracle [] store [] [].

Definition always_ok : nat -> PostOutcome := fun _ => PostOk.

(** Requests, and replies with a [JSON.parse] for them. *)
Definition ask_ketamine : JSValue := JObj [("substance", JStr "Ketamine")].

(** A request whose substance cannot be converted to text. *)
Definition ask_opaque : JSValue := JObj [("substance", opaque)].

Definition by_country_text : string :=
  "{" ++ quoted "US" ++ ":" ++ quoted "Banned" ++ ","
      ++ quoted "CA" ++ ":" ++ quoted "Approved Medical Use" ++ "}".

Definition list_text : string :=
  "[" ++ quoted "Banned" ++ "," ++ quoted "Unknown" ++ "]".

Definition parse_server (raw : string) : option JSValue :=
  if String.eqb raw "null" then Some JNull
  else if String.eqb raw "42" then Some (JNum 42)
  else if String.eqb raw by_country_text
       then Some (JObj [("US", JStr "Banned"); ("CA", JStr "Approved Medical Use")])
  else if String.eqb raw list_text
       then Some (JArr [JStr "Banned"; JStr "Unknown"])
  else None.

(** ** What the further properties are stated over *)

(** The time slept, over a list of delays. *)
Definition total (delays : list Z) : Z := fold_right Z.add 0%Z delays.

(** What a call to the oracle gives the unit of work that made it. *)
Definition outcome_result (o : OracleOutcome) : Result (option string) :=
  match o with
  | Replies content => Returned content
  | Fails status message => Thrown (ApiError status message)
  end.

(** An outcome that [withRetry] answers with a retry, if it has one left. *)
Definition transient (o : OracleOutcome) : bool :=
  match o with
  | Replies _ => false
  | Fails status message => retryable (ApiError status message)
  end.

(** What identifies a row: its id and its (subject, scope) key. *)
Definition row_identity (r : Row) : Z * JSValue * JSValue :=
  (row_id r, row_substance r, row_country_code r).

(** A reply with a note and two arrays, and a [JSON.parse] for it. *)
Definition two_arrays_text : string :=
  "{" ++ quoted "note" ++ ":" ++ quoted "partial" ++ ","
      ++ quoted "results" ++ ":" ++ bare_text ++ ","
      ++ quoted "more" ++ ":" ++ bare_text ++ "}".

Definition parse_two_arrays (raw : string) : option JSValue :=
  if String.eqb raw two_arrays_text
  then Some (JObj [("note", JStr "partial");
                   ("results", JArr [ketamine_us_banned]);
                   ("more", JArr [ketamine_us_banned; ketamine_us_banned])])
  else None.

(** A store call that reads. *)
Definition is_lookup (c : StoreCall) : bool :=
  match c with
  | Select _ _ => true
  | _ => false
  end.

(** The log is only ever added to. *)
Definition log_grows (w w' : World) : Prop :=
  exists lines, log w' = log w ++ lines.

Definition appends_log {A} (m : M A) : Prop :=
  forall w, log_grows w (snd (m w)).

(** * Properties *)

(** ** Backoff retrier *)

Lemma retryDelay_values :
  retryDelay 1 = 2000%Z /\ retryDelay 2 = 4000%Z /\ retryDelay 3 = 8000%Z /\
  retryDelay 4 = 16000%Z /\ retryDelay 5 = 30000%Z.
Proof. repeat split; reflexivity. Qed.

(** The delay never exceeds the cap, and from the fifth retry on it is
    the cap. *)
Lemma retryDelay_cap (attempt : nat) : (retryDelay attempt <= 30000)%Z.
Proof. unfold retryDelay. apply Z.le_min_r. Qed.

Lemma retryDelay_capped (attempt : nat) :
  5 <= attempt -> retryDelay attempt = 30000%Z.
Proof.
  intros H. unfold retryDelay. apply Z.min_r.
  assert (2 ^ 4 <= 2 ^ (Z.of_nat attempt - 1))%Z
    by (apply Z.pow_le_mono_r; lia).
  change (2 ^ 4)%Z with 16%Z in *. lia.
Qed.

Lemma createCompletion_fails req w status message :
  oracle w (List.length (oracle_requests w)) = Fails status message ->
  createCompletion req w =
  (Thrown (ApiError status message),
   set_oracle_requests w (oracle_requests w ++ [req])).
Proof. intros H. unfold createCompletion. rewrite H. reflexivity. Qed.

Lemma createCompletion_replies req w content :
  oracle w (List.length (oracle_requests w)) = Replies content ->
  createCompletion req w =
  (Returned content, set_oracle_requests w (oracle_requests w ++ [req])).
Proof. intros H. unfold createCompletion. rewrite H. reflexivity. Qed.

(** One turn of the loop, by what [fn] does. *)
Lemma withRetry_loop_returned {A} fuel (fn : M A) maxRetries attempt w a w1 :
  fn w = (Returned a, w1) ->
  withRetry_loop (S fuel) fn maxRetries attempt w = (Returned a, w1).
Proof. intros H. simpl. rewrite H. reflexivity. Qed.

Lemma withRetry_loop_exhausted {A} fuel (fn : M A) maxRetries attempt w err w1 :
  fn w = (Thrown err, w1) ->
  maxRetries < S attempt ->
  withRetry_loop (S fuel) fn maxRetries attempt w = (Thrown err, w1).
Proof.
  intros H Hlt. simpl. rewrite H.
  destruct (Nat.ltb_spec maxRetries (S attempt)); [reflexivity | lia].
Qed.

Lemma withRetry_loop_fatal {A} fuel (fn : M A) maxRetries attempt w err w1 :
  fn w = (Thrown err, w1) ->
  retryable err = false ->
  withRetry_loop (S fuel) fn maxRetries attempt w = (Thrown err, w1).
Proof.
  intros H Hr. simpl. rewrite H, Hr.
  destruct (maxRetries <? S attempt)%nat; reflexivity.
Qed.

Lemma withRetry_loop_retry {A} fuel (fn : M A) maxRetries attempt w err w1 :
  fn w = (Thrown err, w1) ->
  S attempt <= maxRetries ->
  retryable err = true ->
  withRetry_loop (S fuel) fn maxRetries attempt w =
  withRetry_loop fuel fn maxRetries (S attempt)
    (snd (wait (retryDelay (S attempt))
            (snd (logWithTimestamp WARN
                    (MsgRetry (S attempt) (retryDelay (S attempt)) err) w1)))).
Proof.
  intros H Hle Hr. simpl. rewrite H, Hr.
  destruct (Nat.ltb_spec maxRetries (S attempt)); [lia | reflexivity].
Qed.

(** The bound on the loop is never reached: entered with [attempt] at
    most [maxRetries] and more than [maxRetries - attempt] turns left,
    the loop ends the way its unit of work lets it. *)
Lemma withRetry_loop_finishes {A} (fn : M A) maxRetries :
  (forall w, fst (fn w) <> Unfinished) ->
  forall fuel attempt w,
    attempt <= maxRetries ->
    maxRetries < attempt + fuel ->
    fst (withRetry_loop fuel fn maxRetries attempt w) <> Unfinished.
Proof.
  intros Hfn. induction fuel as [|fuel IH]; intros attempt w Hle Hlt.
  - exfalso. lia.
  - specialize (Hfn w). simpl.
    destruct (fn w) as [[a|err|] w1]; simpl in *; try congruence.
    destruct (Nat.ltb_spec maxRetries (S attempt)); [simpl; congruence|].
    destruct (retryable err); [|simpl; congruence].
    apply IH; lia.
Qed.

Lemma withRetry_finishes {A} (fn : M A) maxRetries :
  (forall w, fst (fn w) <> Unfinished) ->
  forall w, fst (withRetry fn maxRetries w) <> Unfinished.
Proof.
  intros Hfn w. unfold withRetry.
  apply withRetry_loop_finishes; [assumption | lia | lia].
Qed.

(** More turns than that change nothing. *)
Lemma withRetry_loop_fuel {A} (fn : M A) maxRetries :
  forall fuel1 fuel2 attempt w,
    attempt <= maxRetries ->
    maxRetries < attempt + fuel1 ->
    maxRetries < attempt + fuel2 ->
    withRetry_loop fuel1 fn maxRetries attempt w =
    withRetry_loop fuel2 fn maxRetries attempt w.
Proof.
  induction fuel1 as [|fuel1 IH]; intros fuel2 attempt w Hle H1 H2.
  - exfalso. lia.
  - destruct fuel2 as [|fuel2]; [exfalso; lia|].
    simpl. destruct (fn w) as [[a|err|] w1]; try reflexivity.
    destruct (Nat.ltb_spec maxRetries (S attempt)); [reflexivity|].
    destruct (retryable err); [|reflexivity].
    unfold bind; simpl. apply IH; lia.
Qed.

(** A unit of work that is always rate limited: every turn of the loop
    calls the oracle once and, but for the last, sleeps once. *)
Lemma withRetry_loop_always_fails req maxRetries :
  forall fuel attempt w,
    attempt + S fuel = S maxRetries ->
    (forall k, exists status message,
        oracle w (List.length (oracle_requests w) + k) = Fails status message /\
        retryable (ApiError status message) = true) ->
    exists status message w',
      withRetry_loop (S fuel) (createCompletion req) maxRetries attempt w =
      (Thrown (ApiError status message), w') /\
      oracle w (List.length (oracle_requests w) + fuel) = Fails status message /\
      oracle_requests w' = oracle_requests w ++ repeat req (S fuel) /\
      sleeps w' = sleeps w ++ map retryDelay (seq (S attempt) fuel).
Proof.
  induction fuel as [|fuel IH]; intros attempt w Hsum Hall.
  - destruct (Hall 0) as (status & message & Ho & Hr).
    rewrite Nat.add_0_r in Ho.
    exists status, message. eexists. split.
    + apply withRetry_loop_exhausted;
        [apply createCompletion_fails; exact Ho | lia].
    + rewrite Nat.add_0_r. simpl. rewrite app_nil_r. auto.
  - destruct (Hall 0) as (status & message & Ho & Hr).
    rewrite Nat.add_0_r in Ho.
    rewrite (withRetry_loop_retry _ _ _ _ _ _ _
               (createCompletion_fails req w _ _ Ho)) by (assumption || lia).
    match goal with |- context [withRetry_loop _ _ _ _ ?w2] => set (w2' := w2) end.
    assert (Hreq : oracle_requests w2' = oracle_requests w ++ [req]) by reflexivity.
    assert (Hor : oracle w2' = oracle w) by reflexivity.
    assert (Hsl : sleeps w2' = sleeps w ++ [retryDelay (S attempt)]) by reflexivity.
    destruct (IH (S attempt) w2') as (st & msg & w' & Hrun & Hlast & Hreqs & Hsleeps).
    + lia.
    + intros k. rewrite Hor, Hreq, length_app. simpl.
      destruct (Hall (S k)) as (st & msg & Hk & Hrk).
      exists st, msg. split; [|exact Hrk].
      rewrite <- Hk. f_equal. lia.
    + exists st, msg, w'. split; [exact Hrun|].
      rewrite Hor, Hreq, length_app in Hlast. simpl in Hlast.
      split; [rewrite <- Hlast; f_equal; lia|].
      rewrite Hreqs, Hsleeps, Hreq, Hsl, <- !app_assoc. simpl. auto.
Qed.

(** C4, as the code has it.  With [n] calls to the oracle made so far:
    (a) three rate-limit-class failures and then an answer: [withRetry]
    returns the answer after four calls and sleeps of 2000, 4000 and
    8000 ms;
    (b) rate-limit-class failures for ever: [withRetry] throws the error
    of call number [maxRetries + 1], having made exactly
    [maxRetries + 1] calls and slept [maxRetries] times, the k-th time
    for [min(2000 * 2^(k-1), 30000)] ms;
    (c) a failure that is not retryable, of any unit of work: [withRetry]
    throws that error and leaves the world as the unit of work left it:
    nothing logged, no sleep. *)
Theorem withRetry_backoff (req : Request) (maxRetries : nat) (w : World) :
  (forall s1 m1 s2 m2 s3 m3 content,
      3 <= maxRetries ->
      oracle w (List.length (oracle_requests w)) = Fails s1 m1 ->
      oracle w (List.length (oracle_requests w) + 1) = Fails s2 m2 ->
      oracle w (List.length (oracle_requests w) + 2) = Fails s3 m3 ->
      oracle w (List.length (oracle_requests w) + 3) = Replies content ->
      retryable (ApiError s1 m1) = true ->
      retryable (ApiError s2 m2) = true ->
      retryable (ApiError s3 m3) = true ->
      exists w',
        withRetry (createCompletion req) maxRetries w = (Returned content, w') /\
        oracle_requests w' = oracle_requests w ++ [req; req; req; req] /\
        sleeps w' = sleeps w ++ [2000; 4000; 8000]%Z) /\
  ((forall k, exists status message,
        oracle w (List.length (oracle_requests w) + k) = Fails status message /\
        retryable (ApiError status message) = true) ->
   exists status message w',
     withRetry (createCompletion req) maxRetries w =
     (Thrown (ApiError status message), w') /\
     oracle w (List.length (oracle_requests w) + maxRetries) = Fails status message /\
     oracle_requests w' = oracle_requests w ++ repeat req (maxRetries + 1) /\
     sleeps w' = sleeps w ++ map retryDelay (seq 1 maxRetries)) /\
  (forall (A : Type) (fn : M A) err w1,
      fn w = (Thrown err, w1) ->
      retryable err = false ->
      withRetry fn maxRetries w = (Thrown err, w1)).
Proof.
  split; [|split].
  - intros s1 m1 s2 m2 s3 m3 content Hmax H0 H1 H2 H3 R1 R2 R3.
    unfold withRetry.
    rewrite (withRetry_loop_retry _ _ _ _ _ _ _
               (createCompletion_fails req w _ _ H0)) by (assumption || lia).
    match goal with |- context [withRetry_loop _ _ _ _ ?x] => set (wa := x) end.
    assert (Ha : oracle wa (List.length (oracle_requests wa)) = Fails s2 m2).
    { subst wa. simpl. rewrite length_app. exact H1. }
    destruct maxRetries as [|[|[|m]]]; try lia.
    rewrite (withRetry_loop_retry _ _ _ _ _ _ _
               (createCompletion_fails req wa _ _ Ha)) by (assumption || lia).
    match goal with |- context [withRetry_loop _ _ _ _ ?x] => set (wb := x) end.
    assert (Hb : oracle wb (List.length (oracle_requests wb)) = Fails s3 m3).
    { subst wb wa. simpl. rewrite !length_app. simpl.
      rewrite <- H2. f_equal. lia. }
    rewrite (withRetry_loop_retry _ _ _ _ _ _ _
               (createCompletion_fails req wb _ _ Hb)) by (assumption || lia).
    match goal with |- context [withRetry_loop _ _ _ _ ?x] => set (wc := x) end.
    assert (Hc : oracle wc (List.length (oracle_requests wc)) = Replies content).
    { subst wc wb wa. simpl. rewrite !length_app. simpl.
      rewrite <- H3. f_equal. lia. }
    eexists. split.
    + apply withRetry_loop_returned. apply createCompletion_replies. exact Hc.
    + subst wc wb wa. simpl. rewrite <- !app_assoc. simpl. split; reflexivity.
  - intros Hall. unfold withRetry.
    destruct (withRetry_loop_always_fails req maxRetries maxRetries 0 w
                ltac:(lia) Hall)
      as (status & message & w' & Hrun & Hlast & Hreqs & Hsleeps).
    exists status, message, w'. rewrite Nat.add_1_r. auto.
  - intros A fn err w1 Hfn Hr. unfold withRetry.
    apply withRetry_loop_fatal; assumption.
Qed.

(** With the default [maxRetries] of 5, an oracle that is rate limited
    for ever is called six times before [withRetry] gives up. *)
Lemma withRetry_attempts_counterexample :
  exists err w',
    withRetry (createCompletion ketamine_request) default_maxRetries
              (fresh always_429 no_faults) = (Thrown err, w') /\
    List.length (oracle_requests w') = 6 /\
    List.length (oracle_requests w') <> default_maxRetries /\
    sleeps w' = [2000; 4000; 8000; 16000; 30000]%Z.
Proof.
  eexists. eexists. split; [vm_compute; reflexivity|].
  simpl. repeat split. unfold default_maxRetries. discriminate.
Qed.

Lemma withRetry_backoff_witness :
  (exists w',
      withRetry (createCompletion ketamine_request) 5
                (fresh (thrice_429 (Some "[]")) no_faults) =
      (Returned (Some "[]"), w') /\
      oracle_requests w' =
      [ketamine_request; ketamine_request; ketamine_request; ketamine_request] /\
      sleeps w' = [2000; 4000; 8000]%Z) /\
  (exists status message w',
      withRetry (createCompletion ketamine_request) 5 (fresh always_429 no_faults) =
      (Thrown (ApiError status message), w') /\
      always_429 5 = Fails status message /\
      oracle_requests w' = repeat ketamine_request 6 /\
      sleeps w' = map retryDelay (seq 1 5)) /\
  withRetry (createCompletion ketamine_request) 5 (fresh always_400 no_faults) =
  (Thrown (ApiError (Some 400%Z) "Bad Request"),
   set_oracle_requests (fresh always_400 no_faults) [ketamine_request]).
Proof.
  split; [|split].
  - apply (proj1 (withRetry_backoff ketamine_request 5
                    (fresh (thrice_429 (Some "[]")) no_faults))
             (Some 429%Z) "Too Many Requests" (Some 429%Z) "Too Many Requests"
             (Some 429%Z) "Too Many Requests" (Some "[]"));
      solve [reflexivity | repeat constructor].
  - apply (proj1 (proj2 (withRetry_backoff ketamine_request 5
                           (fresh always_429 no_faults)))).
    intros k. exists (Some 429%Z), "Too Many Requests". split; reflexivity.
  - apply (proj2 (proj2 (withRetry_backoff ketamine_request 5
                           (fresh always_400 no_faults)))); reflexivity.
Defined.

(** ** Oracle client *)

(** When the oracle answers at once, [getAccessStatuses] makes one call
    and hands the content of the answer to [extractRecords]. *)
Lemma getAccessStatuses_reply JSON_parse model substances countries w content :
  oracle w (List.length (oracle_requests w)) = Replies content ->
  getAccessStatuses JSON_parse model substances countries w =
  (extractRecords JSON_parse content,
   set_oracle_requests w
     (oracle_requests w ++ [mkRequest model substances countries])).
Proof.
  intros H. unfold getAccessStatuses, bind, withRetry, default_maxRetries.
  rewrite (withRetry_loop_returned _ _ _ _ _ _ _
             (createCompletion_replies _ w _ H)).
  reflexivity.
Qed.

Lemma find_isArray_skip (before : list JSValue) (v : JSValue) (after : list JSValue) :
  forallb (fun x => negb (isArray x)) before = true ->
  isArray v = true ->
  find isArray (before ++ v :: after) = Some v.
Proof.
  induction before as [|x before IH]; intros Hb Hv; simpl.
  - rewrite Hv. reflexivity.
  - simpl in Hb. apply andb_prop in Hb. destruct Hb as [Hx Hb].
    destruct (isArray x); [discriminate|]. apply IH; assumption.
Qed.

Lemma find_isArray_none (values : list JSValue) :
  forallb (fun x => negb (isArray x)) values = true ->
  find isArray values = None.
Proof.
  induction values as [|x values IH]; intros Hb; simpl; [reflexivity|].
  simpl in Hb. apply andb_prop in Hb. destruct Hb as [Hx Hb].
  destruct (isArray x); [discriminate|]. apply IH; assumption.
Qed.

(** An object in which the first property that holds an array holds
    [records] yields [records]. *)
Lemma extractRecords_first_array JSON_parse raw before key records after :
  raw <> "" ->
  JSON_parse raw = Some (JObj (before ++ (key, JArr records) :: after)) ->
  forallb (fun x => negb (isArray x)) (map snd before) = true ->
  extractRecords JSON_parse (Some raw) = Returned records.
Proof.
  intros Hne Hp Hb. unfold extractRecords.
  destruct (String.eqb_spec raw ""); [contradiction|].
  rewrite Hp. simpl. rewrite map_app. simpl.
  rewrite (find_isArray_skip _ (JArr records)) by (assumption || reflexivity).
  reflexivity.
Qed.

(** C5.  A reply that is a bare array of records and a reply that is an
    object holding that array under any key give the same sequence of
    records. *)
Theorem shape_tolerance
        JSON_parse model substances countries
        (records : list JSValue) (key : string)
        (raw_bare raw_wrapped : string) (w_bare w_wrapped : World) :
  raw_bare <> "" ->
  raw_wrapped <> "" ->
  JSON_parse raw_bare = Some (JArr records) ->
  JSON_parse raw_wrapped = Some (JObj [(key, JArr records)]) ->
  oracle w_bare (List.length (oracle_requests w_bare)) = Replies (Some raw_bare) ->
  oracle w_wrapped (List.length (oracle_requests w_wrapped)) =
    Replies (Some raw_wrapped) ->
  fst (getAccessStatuses JSON_parse model substances countries w_bare) =
    Returned records /\
  fst (getAccessStatuses JSON_parse model substances countries w_wrapped) =
    Returned records.
Proof.
  intros Hb Hw Pb Pw Ob Ow.
  rewrite (getAccessStatuses_reply _ _ _ _ _ _ Ob).
  rewrite (getAccessStatuses_reply _ _ _ _ _ _ Ow).
  simpl. split.
  - unfold extractRecords.
    destruct (String.eqb_spec raw_bare ""); [contradiction|].
    rewrite Pb. reflexivity.
  - apply (extractRecords_first_array _ _ [] key records []);
      [assumption | exact Pw | reflexivity].
Qed.

Lemma shape_tolerance_witness :
  fst (getAccessStatuses parse_sample "gpt-4o-mini" ["Ketamine"] ["US"; "CA"]
         (fresh (always_replies (Some bare_text)) no_faults)) =
    Returned [ketamine_us_banned] /\
  fst (getAccessStatuses parse_sample "gpt-4o-mini" ["Ketamine"] ["US"; "CA"]
         (fresh (always_replies (Some wrapped_text)) no_faults)) =
    Returned [ketamine_us_banned].
Proof.
  apply (shape_tolerance parse_sample "gpt-4o-mini" ["Ketamine"] ["US"; "CA"]
           [ketamine_us_banned] "results" bare_text wrapped_text);
    solve [reflexivity | discriminate].
Defined.

Lemma chars_no_array (s : string) : find isArray (chars s) = None.
Proof. induction s as [|c s IH]; simpl; [reflexivity | exact IH]. Qed.

(** The code handles a reply as described whenever the content does not
    parse to [null]. *)
Lemma extractRecords_as_described JSON_parse (raw : option string) :
  (forall text, raw = Some text -> JSON_parse text <> Some JNull) ->
  (forall text, raw = Some text -> JSON_parse text <> Some JUndefined) ->
  extractRecords JSON_parse raw = replyHandling_described JSON_parse raw.
Proof.
  intros Hnull Hundef. destruct raw as [text|]; [|reflexivity].
  specialize (Hnull text eq_refl). specialize (Hundef text eq_refl).
  unfold extractRecords, replyHandling_described.
  destruct (String.eqb text ""); [reflexivity|].
  destruct (JSON_parse text) as [parsed|]; [|reflexivity].
  destruct parsed; simpl; try reflexivity; try congruence.
  rewrite chars_no_array. reflexivity.
Qed.

(** C6, where the code departs from it.  The content [null] parses, is
    not a sequence and has no child that is one, yet the error is not
    the unexpected-shape error: [Object.values(null)] throws a
    [TypeError] before the shape is reported. *)
Theorem getAccessStatuses_null_reply :
  fst (getAccessStatuses parse_sample "gpt-4o-mini" ["Ketamine"] ["US"; "CA"]
         (fresh (always_replies (Some "null")) no_faults)) =
    Thrown (TypeError "Cannot convert undefined or null to object") /\
  replyHandling_described parse_sample (Some "null") =
    Thrown (ExpectedArray JNull).
Proof. split; reflexivity. Qed.

(** ** Reconciler: one record *)

Lemma upsertRecord_fields (rec : JSValue) :
  nullish rec = false ->
  upsertRecord rec =
  upsertFields (substance_of rec) (country_code_of rec) (access_status_of rec).
Proof. intros H. unfold upsertRecord. rewrite H. reflexivity. Qed.

Lemma upsertRecords_cons (rec : JSValue) (rest : list JSValue) (w w1 : World) :
  upsertRecord rec w = (Returned tt, w1) ->
  upsertRecords (rec :: rest) w = upsertRecords rest w1.
Proof. intros H. simpl. unfold bind. rewrite H. reflexivity. Qed.

Lemma write_index (w : World) (c : StoreCall) :
  List.length (store_calls w ++ [c]) = S (List.length (store_calls w)).
Proof. rewrite length_app. simpl. lia. Qed.

(** Formatting a log line: the line is written when every value it
    formats can be converted to text, and the conversion throws
    otherwise, leaving the state as it is. *)
Lemma logFormatted_printable level msg fields w :
  forallb printable fields = true ->
  logFormatted level msg fields w = (Returned tt, logged level msg w).
Proof. intros H. unfold logFormatted. rewrite H. reflexivity. Qed.

Lemma logFormatted_opaque level msg fields w :
  forallb printable fields = false ->
  logFormatted level msg fields w =
  (Thrown (TypeError "Cannot convert object to primitive value"), w).
Proof. intros H. unfold logFormatted. rewrite H. reflexivity. Qed.

Lemma logFormatted_cases level msg fields w :
  logFormatted level msg fields w = (Returned tt, logged level msg w) \/
  logFormatted level msg fields w =
  (Thrown (TypeError "Cannot convert object to primitive value"), w).
Proof.
  unfold logFormatted. destruct (forallb printable fields); [left | right]; reflexivity.
Qed.

Lemma printable2 (s c : JSValue) :
  printable s = true -> printable c = true -> forallb printable [s; c] = true.
Proof. intros Hs Hc. simpl. rewrite Hs, Hc. reflexivity. Qed.

Lemma printable3 (s c st : JSValue) :
  printable s = true -> printable c = true -> printable st = true ->
  forallb printable [s; c; st] = true.
Proof. intros Hs Hc Hst. simpl. rewrite Hs, Hc, Hst. reflexivity. Qed.

Lemma printable4 (s c old st : JSValue) :
  printable s = true -> printable c = true -> printable old = true ->
  printable st = true ->
  forallb printable [s; c; old; st] = true.
Proof. intros Hs Hc Ho Hst. simpl. rewrite Hs, Hc, Ho, Hst. reflexivity. Qed.

(** The six ways through the body of the loop, up to the log line each
    ends with. *)
Lemma upsertFields_fetch_error s c st w data message :
  select_result w s c = (data, Some message) ->
  upsertFields s c st w =
  logFormatted ERROR (MsgFetchError s c message) [s; c] (called (Select s c) w).
Proof.
  intros H. unfold upsertFields, bind, store_select. rewrite H.
  destruct data; reflexivity.
Qed.

Lemma upsertFields_insert_error s c st w message :
  select_result w s c = (None, None) ->
  store_faults w (S (List.length (store_calls w))) = Some message ->
  upsertFields s c st w =
  logFormatted ERROR (MsgInsertError s c message) [s; c]
    (called (Insert s c st (clock w)) (called (Select s c) w)).
Proof.
  intros H Hf. unfold upsertFields, bind, store_select, now, store_insert.
  rewrite H. cbn [store_faults store_calls set_store_calls clock].
  rewrite write_index, Hf. reflexivity.
Qed.

Lemma upsertFields_insert s c st w :
  select_result w s c = (None, None) ->
  store_faults w (S (List.length (store_calls w))) = None ->
  upsertFields s c st w =
  logFormatted INFO (MsgInserted s c st) [s; c; st]
    (inserted s c st
       (called (Insert s c st (clock w)) (called (Select s c) w))).
Proof.
  intros H Hf. unfold upsertFields, bind, store_select, now, store_insert.
  rewrite H. cbn [store_faults store_calls set_store_calls clock].
  rewrite write_index, Hf. reflexivity.
Qed.

Lemma upsertFields_update_error s c st w existing message :
  select_result w s c = (Some existing, None) ->
  strict_eqb (row_access_status existing) st = false ->
  store_faults w (S (List.length (store_calls w))) = Some message ->
  upsertFields s c st w =
  logFormatted ERROR (MsgUpdateError s c message) [s; c]
    (called (Update (row_id existing) st (clock w)) (called (Select s c) w)).
Proof.
  intros H Hne Hf. unfold upsertFields, bind, store_select, now, store_update.
  rewrite H, Hne. cbn [negb store_faults store_calls set_store_calls clock].
  rewrite write_index, Hf. reflexivity.
Qed.

Lemma upsertFields_update s c st w existing :
  select_result w s c = (Some existing, None) ->
  strict_eqb (row_access_status existing) st = false ->
  store_faults w (S (List.length (store_calls w))) = None ->
  upsertFields s c st w =
  logFormatted INFO (MsgUpdated s c (row_access_status existing) st)
    [s; c; row_access_status existing; st]
    (updated (row_id existing) st
       (called (Update (row_id existing) st (clock w))
               (called (Select s c) w))).
Proof.
  intros H Hne Hf. unfold upsertFields, bind, store_select, now, store_update.
  rewrite H, Hne. cbn [negb store_faults store_calls set_store_calls clock].
  rewrite write_index, Hf. reflexivity.
Qed.

Lemma upsertFields_skip s c st w existing :
  select_result w s c = (Some existing, None) ->
  strict_eqb (row_access_status existing) st = true ->
  upsertFields s c st w =
  logFormatted INFO (MsgSkipped s c) [s; c] (called (Select s c) w).
Proof.
  intros H Heq. unfold upsertFields, bind, store_select.
  rewrite H, Heq. reflexivity.
Qed.

(** The log line changes neither the trace of store calls nor the table,
    written or not. *)
Lemma logFormatted_store level msg fields w :
  store_calls (snd (logFormatted level msg fields w)) = store_calls w /\
  table (snd (logFormatted level msg fields w)) = table w.
Proof.
  destruct (logFormatted_cases level msg fields w) as [H|H]; rewrite H;
    split; reflexivity.
Qed.

Lemma select_found w s c existing :
  select_result w s c = (Some existing, None) ->
  store_faults w (List.length (store_calls w)) = None /\
  filter (row_matches s c) (table w) = [existing].
Proof.
  unfold select_result. destruct (store_faults w _); [discriminate|].
  destruct (filter (row_matches s c) (table w)) as [|r [|r' rows]];
    simpl; intros H; inversion H; auto.
Qed.

Lemma select_found_in w s c existing :
  select_result w s c = (Some existing, None) ->
  In existing (table w) /\ row_matches s c existing = true.
Proof.
  intros H. apply select_found in H. destruct H as [_ H].
  apply filter_In. rewrite H. left. reflexivity.
Qed.

(** A record without a status, against a row that has one: the two
    differ, an update is sent, and the row keeps the status it had;
    only its time is refreshed. *)
Lemma update_without_status_counterexample :
  let w := stocked [ketamine_us 7 "Banned"] no_faults in
  let w' := snd (upsertRecord ketamine_us_no_status w) in
  access_status_of ketamine_us_no_status = JUndefined /\
  select_result w (JStr "Ketamine") (JStr "US") =
    (Some (ketamine_us 7 "Banned"), None) /\
  strict_eqb (JStr "Banned") (access_status_of ketamine_us_no_status) = false /\
  store_calls w' =
    [Select (JStr "Ketamine") (JStr "US"); Update 7 JUndefined 5000] /\
  table w' = [mkRow 7 (JStr "Ketamine") (JStr "US") (JStr "Banned") 5000].
Proof. repeat split. Qed.

(** C2.  For a record that the loop takes up (it can be destructured),
    by what the lookup of its key answers:
    - no row: an insert is sent with the record's fields and the time of
      the call, and once the store takes it the table has that row;
    - a row with another status: an update of that row is sent with the
      record's status and the time of the call, and once the store takes
      it the row holds that time, and holds the record's status when the
      record has one; a record without a status leaves the status of the
      row as it was;
    - a row with the same status: the lookup is the only call, and the
      table is as it was. *)
Theorem reconcile_decision_table (rec : JSValue) (w : World) :
  nullish rec = false ->
  let s := substance_of rec in
  let c := country_code_of rec in
  let st := access_status_of rec in
  let w' := snd (upsertRecord rec w) in
  (select_result w s c = (None, None) ->
   store_calls w' = store_calls w ++ [Select s c; Insert s c st (clock w)] /\
   (store_faults w (S (List.length (store_calls w))) = None ->
    table w' =
    table w ++ [mkRow (next_id w) (to_column s) (to_column c) (to_column st)
                      (clock w)])) /\
  (forall existing,
      select_result w s c = (Some existing, None) ->
      strict_eqb (row_access_status existing) st = false ->
      store_calls w' =
      store_calls w ++ [Select s c; Update (row_id existing) st (clock w)] /\
      (store_faults w (S (List.length (store_calls w))) = None ->
       table w' = map (update_row (row_id existing) st (clock w)) (table w) /\
       In (mkRow (row_id existing) (row_substance existing)
                 (row_country_code existing)
                 (updated_status st (row_access_status existing)) (clock w))
          (table w') /\
       (st <> JUndefined ->
        In (mkRow (row_id existing) (row_substance existing)
                  (row_country_code existing) st (clock w))
           (table w')))) /\
  (forall existing,
      select_result w s c = (Some existing, None) ->
      strict_eqb (row_access_status existing) st = true ->
      store_calls w' = store_calls w ++ [Select s c] /\
      table w' = table w).
Proof.
  intros Hrec s c st w'. subst w'. rewrite (upsertRecord_fields rec Hrec).
  fold s c st. split; [|split].
  - intros Hsel.
    destruct (store_faults w (S (List.length (store_calls w)))) as [message|] eqn:Hf.
    + rewrite (upsertFields_insert_error _ _ _ _ _ Hsel Hf).
      rewrite (proj1 (logFormatted_store _ _ _ _)). simpl.
      rewrite <- app_assoc. split; [reflexivity | discriminate].
    + rewrite (upsertFields_insert _ _ _ _ Hsel Hf).
      rewrite (proj1 (logFormatted_store _ _ _ _)),
              (proj2 (logFormatted_store _ _ _ _)). simpl.
      rewrite <- app_assoc. split; reflexivity.
  - intros existing Hsel Hne.
    destruct (store_faults w (S (List.length (store_calls w)))) as [message|] eqn:Hf.
    + rewrite (upsertFields_update_error _ _ _ _ _ _ Hsel Hne Hf).
      rewrite (proj1 (logFormatted_store _ _ _ _)). simpl.
      rewrite <- app_assoc. split; [reflexivity | discriminate].
    + rewrite (upsertFields_update _ _ _ _ _ Hsel Hne Hf).
      rewrite (proj1 (logFormatted_store _ _ _ _)),
              (proj2 (logFormatted_store _ _ _ _)). simpl.
      rewrite <- app_assoc. split; [reflexivity|]. intros _.
      apply select_found_in in Hsel. destruct Hsel as [Hin _].
      assert (Hrow : In (mkRow (row_id existing) (row_substance existing)
                           (row_country_code existing)
                           (updated_status st (row_access_status existing))
                           (clock w))
                        (map (update_row (row_id existing) st (clock w)) (table w))).
      { apply in_map_iff. exists existing. split; [|exact Hin].
        unfold update_row. rewrite Z.eqb_refl. reflexivity. }
      split; [reflexivity|]. split; [exact Hrow|].
      intros Hst.
      assert (Hkeep : updated_status st (row_access_status existing) = st)
        by (destruct st; try reflexivity; contradiction).
      rewrite Hkeep in Hrow. exact Hrow.
  - intros existing Hsel Heq.
    rewrite (upsertFields_skip _ _ _ _ _ Hsel Heq).
    rewrite (proj1 (logFormatted_store _ _ _ _)),
            (proj2 (logFormatted_store _ _ _ _)). simpl.
    split; reflexivity.
Qed.

Lemma reconcile_decision_table_witness :
  (let w' := snd (upsertRecord ketamine_us_banned (fresh always_400 no_faults)) in
   store_calls w' =
   [Select (JStr "Ketamine") (JStr "US");
    Insert (JStr "Ketamine") (JStr "US") (JStr "Banned") 0] /\
   table w' = [ketamine_us 1 "Banned"]) /\
  (let w' := snd (upsertRecord ketamine_us_banned
                    (stocked [ketamine_us 7 "Unknown"] no_faults)) in
   store_calls w' =
   [Select (JStr "Ketamine") (JStr "US"); Update 7 (JStr "Banned") 5000] /\
   table w' = [mkRow 7 (JStr "Ketamine") (JStr "US") (JStr "Banned") 5000]) /\
  (let w' := snd (upsertRecord ketamine_us_banned
                    (stocked [ketamine_us 7 "Banned"] no_faults)) in
   store_calls w' = [Select (JStr "Ketamine") (JStr "US")] /\
   table w' = [ketamine_us 7 "Banned"]).
Proof.
  split; [|split].
  - destruct (proj1 (reconcile_decision_table ketamine_us_banned
                       (fresh always_400 no_faults) eq_refl) eq_refl)
      as [Hcalls Htable].
    split; [exact Hcalls | exact (Htable eq_refl)].
  - destruct (proj1 (proj2 (reconcile_decision_table ketamine_us_banned
                              (stocked [ketamine_us 7 "Unknown"] no_faults) eq_refl))
                    (ketamine_us 7 "Unknown") eq_refl eq_refl)
      as [Hcalls Htable].
    split; [exact Hcalls | exact (proj1 (Htable eq_refl))].
  - exact (proj2 (proj2 (reconcile_decision_table ketamine_us_banned
                           (stocked [ketamine_us 7 "Banned"] no_faults) eq_refl))
                 (ketamine_us 7 "Banned") eq_refl eq_refl).
Defined.

(** ** Reconciler: failures of the store *)

(** The records after a prefix are taken up from the world the prefix
    leaves, unless the prefix throws. *)
Lemma upsertRecords_app (before rest : list JSValue) (w : World) :
  upsertRecords (before ++ rest) w =
  match upsertRecords before w with
  | (Returned _, w0) => upsertRecords rest w0
  | other => other
  end.
Proof.
  revert w. induction before as [|rec before IH]; intros w; simpl.
  - reflexivity.
  - unfold bind. destruct (upsertRecord rec w) as [[[]|err|] w1];
      [apply IH | reflexivity | reflexivity].
Qed.

Lemma upsertRecords_step (before : list JSValue) (rec : JSValue)
      (rest : list JSValue) (w w0 w1 : World) :
  upsertRecords before w = (Returned tt, w0) ->
  upsertRecord rec w0 = (Returned tt, w1) ->
  upsertRecords (before ++ rec :: rest) w = upsertRecords rest w1.
Proof.
  intros Hb Hr. rewrite upsertRecords_app, Hb.
  apply upsertRecords_cons. exact Hr.
Qed.

Lemma upsertRecords_stops (before : list JSValue) (rec : JSValue)
      (rest : list JSValue) (w w0 w1 : World) (err : JSError) :
  upsertRecords before w = (Returned tt, w0) ->
  upsertRecord rec w0 = (Thrown err, w1) ->
  upsertRecords (before ++ rec :: rest) w = (Thrown err, w1).
Proof.
  intros Hb Hr. rewrite upsertRecords_app, Hb.
  simpl. unfold bind. rewrite Hr. reflexivity.
Qed.







(** ** Reconciler: records without a subject or a scope *)

Lemma row_matches_nullish s c r :
  nullish s = true \/ nullish c = true -> row_matches s c r = false.
Proof.
  unfold row_matches. intros [H|H].
  - destruct s; try discriminate; reflexivity.
  - destruct c; try discriminate; apply andb_false_r.
Qed.

Lemma filter_none {A} (f : A -> bool) (l : list A) :
  (forall x, f x = false) -> filter f l = [].
Proof.
  intros H. induction l as [|x l IH]; simpl; [reflexivity|].
  rewrite H. exact IH.
Qed.

Lemma select_nullish w s c :
  nullish s = true \/ nullish c = true ->
  store_faults w (List.length (store_calls w)) = None ->
  select_result w s c = (None, None).
Proof.
  intros Hn Hf. unfold select_result. rewrite Hf.
  rewrite filter_none; [reflexivity|].
  intros r. apply row_matches_nullish. exact Hn.
Qed.

(** A record without its subject is not dropped: the store is asked for
    it, an insert is sent, the row lands in the table with an empty
    subject, and the one line logged reports the insert. *)
Lemma missing_subject_counterexample :
  substance_of us_banned_no_substance = JUndefined /\
  let w' := snd (upsertRecords [us_banned_no_substance]
                   (fresh always_400 no_faults)) in
  store_calls w' =
  [Select JUndefined (JStr "US");
   Insert JUndefined (JStr "US") (JStr "Banned") 0] /\
  table w' = [mkRow 1 JNull (JStr "US") (JStr "Banned") 0] /\
  log w' = [mkLog 0 INFO (MsgInserted JUndefined (JStr "US") (JStr "Banned"))].
Proof. repeat split. Qed.

(** C7, as the code has it.  A record whose subject or scope is missing
    (or [null]) goes the way of every other record: its lookup, when the
    store answers it, finds no row, and an insert is sent with the
    fields the record has; the row is in the table once the store takes
    the insert.  When the fields the record has can be converted to
    text, one line is logged, about that insert: that it was done, or
    that the store rejected it; and the loop goes on. *)
Theorem incomplete_record_not_dropped (rec : JSValue) (w : World) :
  nullish rec = false ->
  nullish (substance_of rec) = true \/ nullish (country_code_of rec) = true ->
  store_faults w (List.length (store_calls w)) = None ->
  let s := substance_of rec in
  let c := country_code_of rec in
  let st := access_status_of rec in
  let w' := snd (upsertRecord rec w) in
  store_calls w' = store_calls w ++ [Select s c; Insert s c st (clock w)] /\
  (store_faults w (S (List.length (store_calls w))) = None ->
   table w' = table w ++ [new_row w s c st]) /\
  (forall message,
      store_faults w (S (List.length (store_calls w))) = Some message ->
      table w' = table w) /\
  (printable_record rec = true ->
   exists entry,
     upsertRecord rec w = (Returned tt, w') /\
     log w' = log w ++ [entry] /\
     (store_faults w (S (List.length (store_calls w))) = None ->
      log_msg entry = MsgInserted s c st) /\
     (forall message,
         store_faults w (S (List.length (store_calls w))) = Some message ->
         log_msg entry = MsgInsertError s c message)).
Proof.
  intros Hrec Hmiss Hf s c st w'.
  pose proof (select_nullish w s c Hmiss Hf) as Hsel.
  assert (Hprint : printable_record rec = true ->
                   printable s = true /\ printable c = true /\ printable st = true).
  { unfold printable_record. fold s c st. intros H.
    apply andb_prop in H. destruct H as [H Hst].
    apply andb_prop in H. destruct H as [Hs Hc]. auto. }
  subst w'. rewrite (upsertRecord_fields rec Hrec). fold s c st.
  destruct (store_faults w (S (List.length (store_calls w)))) as [message|] eqn:Hw.
  - rewrite (upsertFields_insert_error _ _ _ _ _ Hsel Hw).
    rewrite (proj1 (logFormatted_store _ _ _ _)),
            (proj2 (logFormatted_store _ _ _ _)).
    split; [simpl; rewrite <- app_assoc; reflexivity|].
    split; [discriminate|]. split; [reflexivity|].
    intros Hp. destruct (Hprint Hp) as (Hs & Hc & _).
    rewrite (logFormatted_printable _ _ _ _ (printable2 s c Hs Hc)).
    eexists. split; [reflexivity|]. split; [reflexivity|].
    split; [discriminate|].
    intros m Hm. inversion Hm. reflexivity.
  - rewrite (upsertFields_insert _ _ _ _ Hsel Hw).
    rewrite (proj1 (logFormatted_store _ _ _ _)),
            (proj2 (logFormatted_store _ _ _ _)).
    split; [simpl; rewrite <- app_assoc; reflexivity|].
    split; [reflexivity|]. split; [discriminate|].
    intros Hp. destruct (Hprint Hp) as (Hs & Hc & Hst).
    rewrite (logFormatted_printable _ _ _ _ (printable3 s c st Hs Hc Hst)).
    eexists. split; [reflexivity|]. split; [reflexivity|].
    split; [reflexivity | discriminate].
Qed.

Lemma incomplete_record_not_dropped_witness :
  exists entry w',
    upsertRecord us_banned_no_substance (fresh always_400 no_faults) =
    (Returned tt, w') /\
    store_calls w' =
    [Select JUndefined (JStr "US");
     Insert JUndefined (JStr "US") (JStr "Banned") 0] /\
    table w' = [mkRow 1 JNull (JStr "US") (JStr "Banned") 0] /\
    log w' = [entry].
Proof.
  destruct (incomplete_record_not_dropped us_banned_no_substance
              (fresh always_400 no_faults) eq_refl (or_introl eq_refl) eq_refl)
    as (Hcalls & Htable & _ & Hlog).
  destruct (Hlog eq_refl) as (entry & Hrun & Hentry & _).
  exists entry, (snd (upsertRecord us_banned_no_substance (fresh always_400 no_faults))).
  split; [exact Hrun|]. split; [exact Hcalls|].
  split; [exact (Htable eq_refl) | exact Hentry].
Defined.

(** ** Reconciler: two runs *)

Lemma strict_eqb_eq (a b : JSValue) : strict_eqb a b = true -> a = b.
Proof.
  destruct a, b; simpl; intros H; try discriminate; try reflexivity.
  - apply Bool.eqb_prop in H. congruence.
  - apply Z.eqb_eq in H. congruence.
  - apply String.eqb_eq in H. congruence.
Qed.

Lemma eq_filter_eq (sent column : JSValue) :
  eq_filter sent column = true -> column = sent.
Proof.
  unfold eq_filter. destruct sent; try discriminate; apply strict_eqb_eq.
Qed.

Lemma canonical_fields (rec : JSValue) :
  canonical rec = true ->
  nullish rec = false /\
  exists x y z,
    substance_of rec = JStr x /\ country_code_of rec = JStr y /\
    access_status_of rec = JStr z.
Proof.
  unfold canonical. intros H.
  apply andb_prop in H. destruct H as [H Hz].
  apply andb_prop in H. destruct H as [Hx Hy].
  split.
  - destruct rec; try reflexivity; discriminate.
  - destruct (substance_of rec) as [| | | |x| |]; try discriminate.
    destruct (country_code_of rec) as [| | | |y| |]; try discriminate.
    destruct (access_status_of rec) as [| | | |z| |]; try discriminate.
    exists x, y, z. auto.
Qed.

(** A row found under a text key carries that key. *)
Lemma row_matches_text x y r :
  row_matches (JStr x) (JStr y) r = true <->
  row_substance r = JStr x /\ row_country_code r = JStr y.
Proof.
  unfold row_matches, eq_filter. split.
  - intros H. apply andb_prop in H. destruct H as [H1 H2].
    split; apply strict_eqb_eq; assumption.
  - intros [H1 H2]. rewrite H1, H2. simpl. rewrite !String.eqb_refl. reflexivity.
Qed.

Lemma row_matches_update s c id st ts r :
  row_matches s c (update_row id st ts r) = row_matches s c r.
Proof. unfold update_row. destruct (row_id r =? id)%Z; reflexivity. Qed.

Lemma row_id_update id st ts r : row_id (update_row id st ts r) = row_id r.
Proof. unfold update_row. destruct (row_id r =? id)%Z; reflexivity. Qed.

Lemma filter_update s c id st ts (t : list Row) :
  filter (row_matches s c) (map (update_row id st ts) t) =
  map (update_row id st ts) (filter (row_matches s c) t).
Proof.
  induction t as [|r t IH]; simpl; [reflexivity|].
  rewrite row_matches_update. destruct (row_matches s c r); simpl; congruence.
Qed.

Lemma filter_snoc {A} (f : A -> bool) (l : list A) (x : A) :
  filter f (l ++ [x]) = filter f l ++ (if f x then [x] else []).
Proof. rewrite filter_app. reflexivity. Qed.

Lemma NoDup_snoc {A} (l : list A) (a : A) :
  NoDup l -> ~ In a l -> NoDup (l ++ [a]).
Proof.
  intros Hl Ha. induction Hl as [|b l Hb Hl IH]; simpl.
  - constructor; [intros [] | constructor].
  - constructor.
    + intros Hin. apply in_app_or in Hin. destruct Hin as [Hin|[Hin|[]]].
      * contradiction.
      * subst. apply Ha. left. reflexivity.
    + apply IH. intros Hin. apply Ha. right. exact Hin.
Qed.

Lemma same_id_same_row (t : list Row) (r1 r2 : Row) :
  NoDup (map row_id t) -> In r1 t -> In r2 t -> row_id r1 = row_id r2 -> r1 = r2.
Proof.
  induction t as [|r t IH]; simpl; intros Hnd H1 H2 Hid; [contradiction|].
  inversion Hnd as [|? ? Hnotin Hnd']; subst.
  destruct H1 as [H1|H1], H2 as [H2|H2]; subst.
  - reflexivity.
  - exfalso. apply Hnotin. rewrite Hid. apply in_map. exact H2.
  - exfalso. apply Hnotin. rewrite <- Hid. apply in_map. exact H1.
  - apply IH; assumption.
Qed.

(** What a reliable, well-formed store answers to a lookup. *)
Lemma select_cases (w : World) (s c : JSValue) :
  reliable w -> store_wf w ->
  (filter (row_matches s c) (table w) = [] /\ select_result w s c = (None, None)) \/
  (exists row, filter (row_matches s c) (table w) = [row] /\
               select_result w s c = (Some row, None)).
Proof.
  intros Hrel (_ & _ & Huniq). unfold select_result. rewrite Hrel.
  specialize (Huniq s c).
  destruct (filter (row_matches s c) (table w)) as [|row [|row' rows]].
  - left. auto.
  - right. exists row. auto.
  - simpl in Huniq. lia.
Qed.

Section OneCanonicalRecord.

Variable w : World.
Variable rec : JSValue.
Variables x y z : string.

Hypothesis w_reliable : reliable w.
Hypothesis w_wf : store_wf w.
Hypothesis w_printable : printable_statuses w.
Hypothesis rec_destructures : nullish rec = false.
Hypothesis rec_substance : substance_of rec = JStr x.
Hypothesis rec_country_code : country_code_of rec = JStr y.
Hypothesis rec_access_status : access_status_of rec = JStr z.

(** The three outcomes of the body of the loop on a record with text
    fields, when the store is reliable and the statuses it holds can be
    converted to text: insert, no-op, update. *)
Lemma canonical_outcome :
  exists w',
    upsertRecord rec w = (Returned tt, w') /\
    store_faults w' = store_faults w /\
    ((filter (row_matches (JStr x) (JStr y)) (table w) = [] /\
      table w' = table w ++ [mkRow (next_id w) (JStr x) (JStr y) (JStr z) (clock w)] /\
      next_id w' = (next_id w + 1)%Z) \/
     (exists row,
         filter (row_matches (JStr x) (JStr y)) (table w) = [row] /\
         row_access_status row = JStr z /\
         table w' = table w /\ next_id w' = next_id w) \/
     (exists row,
         filter (row_matches (JStr x) (JStr y)) (table w) = [row] /\
         row_access_status row <> JStr z /\
         table w' = map (update_row (row_id row) (JStr z) (clock w)) (table w) /\
         next_id w' = next_id w)).
Proof.
  rewrite (upsertRecord_fields rec rec_destructures).
  rewrite rec_substance, rec_country_code, rec_access_status.
  destruct (select_cases w (JStr x) (JStr y) w_reliable w_wf)
    as [[Hnone Hsel] | (row & Hone & Hsel)].
  - rewrite (upsertFields_insert _ _ _ _ Hsel (w_reliable _)).
    eexists. split; [reflexivity|]. split; [reflexivity|].
    left. split; [exact Hnone|]. split; reflexivity.
  - destruct (strict_eqb (row_access_status row) (JStr z)) eqn:Hst.
    + rewrite (upsertFields_skip _ _ _ _ _ Hsel Hst).
      eexists. split; [reflexivity|]. split; [reflexivity|].
      right. left. exists row. split; [exact Hone|].
      split; [apply strict_eqb_eq; exact Hst|]. split; reflexivity.
    + rewrite (upsertFields_update _ _ _ _ _ Hsel Hst (w_reliable _)).
      assert (Hold : printable (row_access_status row) = true).
      { apply w_printable. apply select_found_in in Hsel. apply Hsel. }
      rewrite logFormatted_printable by (apply printable4; auto).
      eexists. split; [reflexivity|]. split; [reflexivity|].
      right. right. exists row. split; [exact Hone|]. split.
      * intros Heq. rewrite Heq in Hst. simpl in Hst.
        rewrite String.eqb_refl in Hst. discriminate.
      * split; reflexivity.
Qed.

End OneCanonicalRecord.

(** After a record with text fields went through a reliable store, the
    store is still well formed, the record is settled, and every record
    that was settled still is, if it agrees with this one on the status
    when it has its key. *)
Lemma upsertRecord_canonical (w : World) (rec : JSValue) :
  reliable w -> store_wf w -> printable_statuses w -> canonical rec = true ->
  exists w',
    upsertRecord rec w = (Returned tt, w') /\
    reliable w' /\ store_wf w' /\ printable_statuses w' /\ settled w' rec /\
    (forall p,
        canonical p = true -> settled w p ->
        (substance_of p = substance_of rec ->
         country_code_of p = country_code_of rec ->
         access_status_of p = access_status_of rec) ->
        settled w' p).
Proof.
  intros Hrel Hwf Hprint Hcan.
  destruct (canonical_fields rec Hcan) as (Hnn & x & y & z & Hx & Hy & Hz).
  destruct (canonical_outcome w rec x y z Hrel Hwf Hprint Hnn Hx Hy Hz)
    as (w' & Hrun & Hfaults & Hcases).
  exists w'. split; [exact Hrun|].
  split; [intros n; rewrite Hfaults; apply Hrel|].
  assert (Hprint' : printable_statuses w').
  { unfold printable_statuses.
    destruct Hcases as [(_ & Htable & _)
                       | [(row & _ & _ & Htable & _)
                         | (row & _ & _ & Htable & _)]];
      rewrite Htable; intros r Hr.
    - apply in_app_or in Hr. destruct Hr as [Hr|[Hr|[]]];
        [apply Hprint; exact Hr | subst r; reflexivity].
    - apply Hprint. exact Hr.
    - apply in_map_iff in Hr. destruct Hr as (r0 & Hr0 & Hin0). subst r.
      unfold update_row. destruct (row_id r0 =? row_id row)%Z;
        [reflexivity | apply Hprint; exact Hin0]. }
  cut (store_wf w' /\ settled w' rec /\
       (forall p,
           canonical p = true -> settled w p ->
           (substance_of p = substance_of rec ->
            country_code_of p = country_code_of rec ->
            access_status_of p = access_status_of rec) ->
           settled w' p)).
  { intros (H1 & H2 & H3). auto. }
  clear Hprint'.
  destruct Hwf as (Hids & Hold & Huniq).
  unfold settled. rewrite Hx, Hy, Hz.
  destruct Hcases as [(Hnone & Htable & Hnext)
                     | [(row & Hone & Hstatus & Htable & Hnext)
                       | (row & Hone & Hstatus & Htable & Hnext)]].
  - (* insert *)
    set (new := mkRow (next_id w) (JStr x) (JStr y) (JStr z) (clock w)) in *.
    assert (Hnew : row_matches (JStr x) (JStr y) new = true)
      by (apply row_matches_text; split; reflexivity).
    split; [|split].
    + unfold store_wf. rewrite Htable, Hnext. split; [|split].
      * rewrite map_app. simpl. apply NoDup_snoc; [exact Hids|].
        intros Hin. apply in_map_iff in Hin. destruct Hin as (r & Hid & Hr).
        specialize (Hold r Hr). lia.
      * intros r Hr. apply in_app_or in Hr. destruct Hr as [Hr|[Hr|[]]].
        -- specialize (Hold r Hr). lia.
        -- subst r. simpl. lia.
      * intros s c. rewrite filter_snoc, length_app.
        destruct (row_matches s c new) eqn:Hm; simpl.
        -- unfold row_matches in Hm. apply andb_prop in Hm.
           destruct Hm as [Hs Hc].
           apply eq_filter_eq in Hs. apply eq_filter_eq in Hc.
           simpl in Hs, Hc. subst s c. rewrite Hnone. simpl. lia.
        -- specialize (Huniq s c). lia.
    + exists new. rewrite Htable, filter_snoc, Hnone, Hnew. auto.
    + intros p Hp (row_p & Hrow_p & Hst_p) Hagree.
      destruct (canonical_fields p Hp) as (_ & px & py & pz & Hpx & Hpy & Hpz).
      rewrite Hpx, Hpy in *. exists row_p. split; [|exact Hst_p].
      rewrite Htable, filter_snoc, Hrow_p.
      destruct (row_matches (JStr px) (JStr py) new) eqn:Hm; [|reflexivity].
      apply row_matches_text in Hm. simpl in Hm. destruct Hm as [Ex Ey].
      rewrite <- Ex, <- Ey, Hnone in Hrow_p. discriminate.
  - (* no-op *)
    split; [|split].
    + unfold store_wf. rewrite Htable, Hnext. auto.
    + exists row. rewrite Htable. auto.
    + intros p Hp Hsettled _. rewrite Htable. exact Hsettled.
  - (* update *)
    assert (Hin : In row (table w) /\ row_matches (JStr x) (JStr y) row = true).
    { apply filter_In. rewrite Hone. left. reflexivity. }
    destruct Hin as [Hin Hmatch].
    split; [|split].
    + unfold store_wf. rewrite Htable, Hnext. split; [|split].
      * rewrite map_map. erewrite map_ext; [exact Hids|].
        intros r. apply row_id_update.
      * intros r Hr. apply in_map_iff in Hr. destruct Hr as (r0 & Hr0 & Hin0).
        subst r. rewrite row_id_update. apply Hold. exact Hin0.
      * intros s c. rewrite filter_update, length_map. apply Huniq.
    + eexists. rewrite Htable, filter_update, Hone. simpl.
      split; [reflexivity|].
      unfold update_row. rewrite Z.eqb_refl. reflexivity.
    + intros p Hp (row_p & Hrow_p & Hst_p) Hagree.
      destruct (canonical_fields p Hp) as (_ & px & py & pz & Hpx & Hpy & Hpz).
      rewrite Hpx, Hpy, Hpz in *.
      assert (Hin_p : In row_p (table w) /\
                      row_matches (JStr px) (JStr py) row_p = true).
      { apply filter_In. rewrite Hrow_p. left. reflexivity. }
      destruct Hin_p as [Hin_p Hmatch_p].
      eexists. rewrite Htable, filter_update, Hrow_p. simpl.
      split; [reflexivity|].
      unfold update_row. destruct (row_id row_p =? row_id row)%Z eqn:Hid;
        [|exact Hst_p].
      apply Z.eqb_eq in Hid.
      assert (row_p = row) by (apply (same_id_same_row (table w)); assumption).
      subst row_p. simpl.
      apply row_matches_text in Hmatch. apply row_matches_text in Hmatch_p.
      destruct Hmatch as [E1 E2]. destruct Hmatch_p as [E3 E4].
      rewrite Hagree; congruence.
Qed.

(** The first run: over consistent records with text fields, a reliable
    and well-formed store ends with every record settled. *)
Lemma first_run_settles :
  forall (records done : list JSValue) (w : World),
    reliable w -> store_wf w -> printable_statuses w ->
    Forall (fun rec => canonical rec = true) (done ++ records) ->
    consistent (done ++ records) ->
    (forall p, In p done -> settled w p) ->
    exists w',
      upsertRecords records w = (Returned tt, w') /\
      reliable w' /\ store_wf w' /\
      (forall p, In p (done ++ records) -> settled w' p).
Proof.
  induction records as [|rec rest IH];
    intros done w Hrel Hwf Hprint Hcan Hcons Hdone.
  - exists w. rewrite app_nil_r. simpl. auto.
  - assert (Hrec : canonical rec = true).
    { rewrite Forall_forall in Hcan. apply Hcan.
      apply in_or_app. right. left. reflexivity. }
    destruct (upsertRecord_canonical w rec Hrel Hwf Hprint Hrec)
      as (w1 & Hrun & Hrel1 & Hwf1 & Hprint1 & Hset1 & Hkeep).
    destruct (IH (done ++ [rec]) w1 Hrel1 Hwf1 Hprint1)
      as (w' & Hrest & Hrel' & Hwf' & Hall).
    + rewrite <- app_assoc. exact Hcan.
    + rewrite <- app_assoc. exact Hcons.
    + intros p Hp. apply in_app_or in Hp. destruct Hp as [Hp|[Hp|[]]].
      * apply Hkeep.
        -- rewrite Forall_forall in Hcan. apply Hcan.
           apply in_or_app. left. exact Hp.
        -- apply Hdone. exact Hp.
        -- apply Hcons; apply in_or_app; [left; exact Hp | right; left; reflexivity].
      * subst p. exact Hset1.
    + exists w'. split; [|split; [exact Hrel'|split; [exact Hwf'|]]].
      * rewrite (upsertRecords_cons rec rest w w1 Hrun). exact Hrest.
      * intros p Hp. apply Hall. rewrite <- app_assoc. exact Hp.
Qed.

(** A run over settled records: one lookup and one no-op line for each,
    and nothing else. *)
Lemma settled_run_is_noop :
  forall (records : list JSValue) (w : World),
    reliable w ->
    Forall (fun rec => canonical rec = true) records ->
    (forall p, In p records -> settled w p) ->
    exists w',
      upsertRecords records w = (Returned tt, w') /\
      table w' = table w /\ next_id w' = next_id w /\
      store_calls w' = store_calls w ++ map lookup_of records /\
      log w' = log w ++ map (fun rec => mkLog (clock w) INFO (noop_of rec)) records.
Proof.
  induction records as [|rec rest IH]; intros w Hrel Hcan Hset.
  - exists w. simpl. rewrite !app_nil_r. auto.
  - inversion Hcan as [|? ? Hrec Hrest]; subst.
    destruct (canonical_fields rec Hrec) as (Hnn & x & y & z & Hx & Hy & Hz).
    destruct (Hset rec (or_introl eq_refl)) as (row & Hrow & Hst).
    assert (Hsel : select_result w (substance_of rec) (country_code_of rec) =
                   (Some row, None)).
    { unfold select_result. rewrite Hrel, Hrow. reflexivity. }
    assert (Heq : strict_eqb (row_access_status row) (access_status_of rec) = true).
    { rewrite Hst, Hz. simpl. apply String.eqb_refl. }
    pose proof (upsertFields_skip _ _ _ _ _ Hsel Heq) as Hstep.
    rewrite <- (upsertRecord_fields rec Hnn) in Hstep.
    rewrite logFormatted_printable in Hstep by (rewrite Hx, Hy; reflexivity).
    match type of Hstep with _ = (_, ?w1') => set (w1 := w1') in * end.
    destruct (IH w1) as (w' & Hrun & Htable & Hnext & Hcalls & Hlog).
    + intros n. apply Hrel.
    + exact Hrest.
    + intros p Hp. apply (Hset p). right. exact Hp.
    + exists w'. split; [|split; [exact Htable|split; [exact Hnext|split]]].
      * rewrite (upsertRecords_cons rec rest w w1 Hstep). exact Hrun.
      * rewrite Hcalls. subst w1. simpl. rewrite <- app_assoc. reflexivity.
      * rewrite Hlog. subst w1. simpl. rewrite <- app_assoc. reflexivity.
Qed.

(** Reconciling the same key first to one status and then to another
    is not idempotent: the second run finds the last status, and updates
    the row twice. *)
Lemma reconcile_twice_counterexample :
  let records := [ketamine_us_banned; ketamine_us_approved] in
  let w1 := snd (upsertRecords records (fresh always_400 no_faults)) in
  let w2 := snd (upsertRecords records w1) in
  table w1 = [ketamine_us 1 "Approved Medical Use"] /\
  skipn (List.length (store_calls w1)) (store_calls w2) =
  [Select (JStr "Ketamine") (JStr "US");
   Update 1 (JStr "Banned") 0;
   Select (JStr "Ketamine") (JStr "US");
   Update 1 (JStr "Approved Medical Use") 0].
Proof. split; reflexivity. Qed.

(** What the statement below assumes is needed.  When the store rejects
    the insert of the first run, the second run makes it; and a record
    without its subject is looked up in vain and inserted by every run. *)
Lemma second_run_after_rejected_insert :
  let w1 := snd (upsertRecords [ketamine_us_banned]
                   (fresh always_400 (fault_at 1 "permission denied"))) in
  let w2 := snd (upsertRecords [ketamine_us_banned] w1) in
  table w1 = [] /\
  skipn (List.length (store_calls w1)) (store_calls w2) =
  [Select (JStr "Ketamine") (JStr "US");
   Insert (JStr "Ketamine") (JStr "US") (JStr "Banned") 0] /\
  table w2 = [mkRow 1 (JStr "Ketamine") (JStr "US") (JStr "Banned") 0].
Proof. repeat split. Qed.

Lemma second_run_without_subject :
  let w1 := snd (upsertRecords [us_banned_no_substance]
                   (fresh always_400 no_faults)) in
  let w2 := snd (upsertRecords [us_banned_no_substance] w1) in
  table w2 =
  [mkRow 1 JNull (JStr "US") (JStr "Banned") 0;
   mkRow 2 JNull (JStr "US") (JStr "Banned") 0].
Proof. reflexivity. Qed.

(** A row whose status cannot be converted to text stops the first run
    at the record that replaces that status: the update is made, the
    line that reports it cannot be built, and the record after it is
    left for the second run to insert. *)
Lemma first_run_over_opaque_status :
  let records := [ketamine_us_banned; mdma_ca_unknown] in
  let w0 := stocked [mkRow 7 (JStr "Ketamine") (JStr "US") opaque 0] no_faults in
  let w1 := snd (upsertRecords records w0) in
  let w2 := snd (upsertRecords records w1) in
  fst (upsertRecords records w0) =
    Thrown (TypeError "Cannot convert object to primitive value") /\
  table w1 = [mkRow 7 (JStr "Ketamine") (JStr "US") (JStr "Banned") 5000] /\
  skipn (List.length (store_calls w1)) (store_calls w2) =
  [Select (JStr "Ketamine") (JStr "US");
   Select (JStr "MDMA") (JStr "CA");
   Insert (JStr "MDMA") (JStr "CA") (JStr "Unknown") 5000].
Proof. repeat split. Qed.

(** C1, as the code has it.  Take records that each carry a text
    subject, scope and status, such that records of one (subject, scope)
    key carry one status, and a store that rejects no call, keeps at
    most one row for a key and holds statuses that can be converted to
    text.  The first run returns.  A second run over
    the same records, from any world that has the table the first run
    left, sends one lookup for each record and no insert and no update,
    leaves the table as it was, and logs one no-op line for each record
    and nothing else. *)
Theorem reconcile_idempotent (records : list JSValue) (w0 : World) :
  Forall (fun rec => canonical rec = true) records ->
  consistent records ->
  reliable w0 -> store_wf w0 -> printable_statuses w0 ->
  exists w1,
    upsertRecords records w0 = (Returned tt, w1) /\
    forall w1',
      table w1' = table w1 -> reliable w1' ->
      exists w2,
        upsertRecords records w1' = (Returned tt, w2) /\
        table w2 = table w1 /\
        store_calls w2 = store_calls w1' ++ map lookup_of records /\
        map log_msg (log w2) = map log_msg (log w1') ++ map noop_of records.
Proof.
  intros Hcan Hcons Hrel Hwf Hprint.
  destruct (first_run_settles records [] w0 Hrel Hwf Hprint Hcan Hcons)
    as (w1 & Hrun & _ & _ & Hsettled); [intros p []|].
  exists w1. split; [exact Hrun|].
  intros w1' Htable Hrel'.
  destruct (settled_run_is_noop records w1' Hrel' Hcan)
    as (w2 & Hrun2 & Htable2 & _ & Hcalls & Hlog).
  - intros p Hp. unfold settled. rewrite Htable. apply Hsettled. exact Hp.
  - exists w2. split; [exact Hrun2|]. split; [congruence|].
    split; [exact Hcalls|].
    rewrite Hlog, map_app, map_map. reflexivity.
Qed.

Lemma reconcile_idempotent_witness :
  let records := [ketamine_us_banned; mdma_ca_unknown; ketamine_us_banned] in
  exists w1 w2,
    upsertRecords records (fresh always_400 no_faults) = (Returned tt, w1) /\
    upsertRecords records w1 = (Returned tt, w2) /\
    table w2 = table w1 /\
    store_calls w2 = store_calls w1 ++ map lookup_of records.
Proof.
  intros records.
  assert (Hcan : Forall (fun rec => canonical rec = true) records)
    by (repeat constructor).
  assert (Hcons : consistent records).
  { intros r1 r2 H1 H2. simpl in H1, H2.
    destruct H1 as [H1|[H1|[H1|[]]]], H2 as [H2|[H2|[H2|[]]]]; subst r1 r2;
      intros Hs Hc; solve [reflexivity | discriminate Hs]. }
  assert (Hrel : reliable (fresh always_400 no_faults)) by (intros n; reflexivity).
  assert (Hwf : store_wf (fresh always_400 no_faults)).
  { split; [constructor|]. split; [intros r []|]. intros s c. simpl.
    apply le_S, le_n. }
  assert (Hprint : printable_statuses (fresh always_400 no_faults))
    by (intros r []).
  destruct (reconcile_idempotent records (fresh always_400 no_faults)
              Hcan Hcons Hrel Hwf Hprint) as (w1 & Hrun & Hsecond).
  assert (Hw1 : w1 = snd (upsertRecords records (fresh always_400 no_faults)))
    by (rewrite Hrun; reflexivity).
  destruct (Hsecond w1 eq_refl) as (w2 & Hrun2 & Htable & Hcalls & _).
  - rewrite Hw1. intros n. reflexivity.
  - exists w1, w2. split; [exact Hrun|]. split; [exact Hrun2|].
    split; [exact Htable | exact Hcalls].
Defined.

(** ** Batches *)

Lemma slice_from (A : Type) (l : list A) (i n : nat) :
  slice l i (i + n) = firstn n (skipn i l).
Proof. unfold slice. f_equal. lia. Qed.

Lemma ceil_step (len i B : nat) :
  0 < B -> i < len ->
  S ((len - (i + B) + B - 1) / B) = (len - i + B - 1) / B.
Proof.
  intros HB Hi.
  replace (len - i + B - 1) with ((len - i - 1) + 1 * B) by lia.
  rewrite Nat.div_add by lia. rewrite Nat.add_1_r. f_equal.
  destruct (Nat.le_gt_cases B (len - i)) as [Hle|Hlt].
  - f_equal. lia.
  - rewrite !Nat.div_small by lia. reflexivity.
Qed.

(** What the loop plans from index [i] on. *)
Lemma planBatches_from (A : Type) (l : list A) (B : nat) :
  0 < B ->
  forall fuel i,
    List.length l - i < fuel ->
    exists batches,
      planBatches fuel l B i = Some batches /\
      List.concat batches = skipn i l /\
      List.length batches = (List.length l - i + B - 1) / B /\
      (forall k, k < List.length batches ->
                 nth k batches [] = slice l (i + k * B) (i + k * B + B)).
Proof.
  intros HB. induction fuel as [|fuel IH]; intros i Hfuel; [lia|].
  simpl. destruct (Nat.ltb_spec i (List.length l)) as [Hi|Hi].
  - destruct (IH (i + B)) as (rest & Hplan & Hcat & Hlen & Hnth); [lia|].
    rewrite Hplan. eexists. split; [reflexivity|]. split; [|split].
    + simpl. rewrite Hcat, slice_from, (Nat.add_comm i B).
      rewrite <- (skipn_skipn B i l), firstn_skipn. reflexivity.
    + simpl. rewrite Hlen. apply ceil_step; assumption.
    + intros [|k] Hk; simpl.
      * rewrite Nat.add_0_r. reflexivity.
      * simpl in Hk. rewrite Hnth by lia. f_equal; lia.
  - exists []. split; [reflexivity|]. split; [|split].
    + simpl. symmetry. apply skipn_all2. exact Hi.
    + simpl. symmetry. apply Nat.div_small. lia.
    + simpl. intros k Hk. lia.
Qed.

Section LoopWalksPlan.

Variable JSON_parse : string -> option JSValue.
Variable model : string.
Variable SUBSTANCES COUNTRIES : list string.
Variable batchSize : nat.
Hypothesis batchSize_positive : 0 < batchSize.

(** The loop of [main] queries the planned batches one after the
    other, whatever the oracle does. *)
Lemma collect_loop_walks_plan :
  forall fuel i allResults batches,
    planBatches fuel COUNTRIES batchSize i = Some batches ->
    forall w,
      collect_loop JSON_parse model SUBSTANCES COUNTRIES batchSize
                   fuel i allResults w =
      queryBatches JSON_parse model SUBSTANCES batches
                   (i / batchSize + 1) allResults w.
Proof.
  induction fuel as [|fuel IH]; intros i allResults batches Hplan w;
    [discriminate|].
  simpl in Hplan |- *.
  destruct (i <? List.length COUNTRIES)%nat.
  - destruct (planBatches fuel COUNTRIES batchSize (i + batchSize))
      as [rest|] eqn:Hrest; [|discriminate].
    inversion Hplan; subst batches; clear Hplan. simpl.
    unfold bind.
    destruct (logWithTimestamp INFO _ w) as [[[]|err|] w1]; try reflexivity.
    destruct (getAccessStatuses JSON_parse model SUBSTANCES _ w1)
      as [[results|err|] w2]; try reflexivity.
    destruct (wait 2000 w2) as [[[]|err|] w3]; try reflexivity.
    rewrite (IH _ _ _ Hrest).
    replace (i + batchSize) with (i + 1 * batchSize) by lia.
    rewrite Nat.div_add by lia.
    replace (i / batchSize + 1 + 1) with (S (i / batchSize + 1)) by lia.
    reflexivity.
  - inversion Hplan; subst batches. reflexivity.
Qed.

End LoopWalksPlan.

(** C3.  For a catalog of [N] scopes and a batch size [B > 0], the
    loop of [main] plans [ceil(N / B)] batches, which it queries in
    order; the k-th is the slice of the catalog from [k * B] to
    [k * B + B], of at most [B] scopes; and the batches put end to end
    are the catalog. *)
Theorem batch_coverage
        JSON_parse (model : string) (SUBSTANCES COUNTRIES : list string)
        (batchSize : nat) :
  0 < batchSize ->
  exists batches,
    planBatches (S (List.length COUNTRIES)) COUNTRIES batchSize 0 = Some batches /\
    (forall w,
        collect JSON_parse model SUBSTANCES COUNTRIES batchSize w =
        queryBatches JSON_parse model SUBSTANCES batches 1 [] w) /\
    List.length batches = (List.length COUNTRIES + batchSize - 1) / batchSize /\
    (forall k, k < List.length batches ->
               nth k batches [] =
               slice COUNTRIES (k * batchSize) (k * batchSize + batchSize) /\
               List.length (nth k batches []) <= batchSize) /\
    List.concat batches = COUNTRIES.
Proof.
  intros HB.
  destruct (planBatches_from string COUNTRIES batchSize HB
              (S (List.length COUNTRIES)) 0 ltac:(lia))
    as (batches & Hplan & Hcat & Hlen & Hnth).
  exists batches. split; [exact Hplan|]. split; [|split; [|split]].
  - intros w. unfold collect.
    rewrite (collect_loop_walks_plan JSON_parse model SUBSTANCES COUNTRIES
               batchSize HB _ _ _ _ Hplan).
    rewrite Nat.Div0.div_0_l. reflexivity.
  - rewrite Hlen. f_equal. lia.
  - intros k Hk. rewrite (Hnth k Hk). simpl. split; [reflexivity|].
    rewrite slice_from. apply firstn_le_length.
  - rewrite Hcat. reflexivity.
Qed.

(** The catalog of the program has 194 codes (the comment above it says
    193); with the batch size of 25 that is eight batches. *)
Lemma batch_coverage_witness :
  exists batches,
    planBatches (S (List.length COUNTRIES)) COUNTRIES 25 0 = Some batches /\
    List.length batches = 8 /\
    List.concat batches = COUNTRIES.
Proof.
  destruct (batch_coverage parse_sample "gpt-4o-mini" SUBSTANCES COUNTRIES 25)
    as (batches & Hplan & _ & Hlen & _ & Hcat).
  - repeat constructor.
  - exists batches. split; [exact Hplan|]. split; [exact Hlen | exact Hcat].
Defined.

(** ** The run *)

Lemma store_untouched_refl w : store_untouched w w.
Proof. repeat split. Qed.

Lemma store_untouched_trans w1 w2 w3 :
  store_untouched w1 w2 -> store_untouched w2 w3 -> store_untouched w1 w3.
Proof.
  unfold store_untouched. intros (A1 & B1 & C1) (A2 & B2 & C2).
  repeat split; congruence.
Qed.

Lemma keeps_store_bind {A B} (m : M A) (k : A -> M B) :
  keeps_store m -> (forall a, keeps_store (k a)) -> keeps_store (bind m k).
Proof.
  intros Hm Hk w. unfold bind. specialize (Hm w).
  destruct (m w) as [[a|err|] w1]; simpl in *; try exact Hm.
  apply (store_untouched_trans w w1); [exact Hm | apply Hk].
Qed.

Lemma keeps_store_log level msg : keeps_store (logWithTimestamp level msg).
Proof. intros w. repeat split. Qed.

Lemma keeps_store_wait delay : keeps_store (wait delay).
Proof. intros w. repeat split. Qed.

Lemma keeps_store_createCompletion req : keeps_store (createCompletion req).
Proof.
  intros w. unfold createCompletion.
  destruct (oracle w _); repeat split.
Qed.

Lemma keeps_store_withRetry_loop {A} (fn : M A) maxRetries :
  keeps_store fn ->
  forall fuel attempt, keeps_store (withRetry_loop fuel fn maxRetries attempt).
Proof.
  intros Hfn. induction fuel as [|fuel IH]; intros attempt w.
  - apply store_untouched_refl.
  - simpl. specialize (Hfn w).
    destruct (fn w) as [[a|err|] w1]; simpl in *; try exact Hfn.
    destruct (maxRetries <? S attempt)%nat; [exact Hfn|].
    destruct (retryable err); [|exact Hfn].
    apply (store_untouched_trans w w1); [exact Hfn|].
    apply (keeps_store_bind (logWithTimestamp _ _)); [apply keeps_store_log|].
    intros _. apply keeps_store_bind; [apply keeps_store_wait|].
    intros _. apply IH.
Qed.

Lemma keeps_store_getAccessStatuses JSON_parse model substances countries :
  keeps_store (getAccessStatuses JSON_parse model substances countries).
Proof.
  unfold getAccessStatuses. apply keeps_store_bind.
  - apply keeps_store_withRetry_loop. apply keeps_store_createCompletion.
  - intros response w. apply store_untouched_refl.
Qed.

Lemma keeps_store_collect_loop JSON_parse model SUBSTANCES COUNTRIES batchSize :
  forall fuel i allResults,
    keeps_store (collect_loop JSON_parse model SUBSTANCES COUNTRIES batchSize
                              fuel i allResults).
Proof.
  induction fuel as [|fuel IH]; intros i allResults.
  - intros w. apply store_untouched_refl.
  - simpl. destruct (i <? List.length COUNTRIES)%nat.
    + apply keeps_store_bind; [apply keeps_store_log|]. intros _.
      apply keeps_store_bind; [apply keeps_store_getAccessStatuses|].
      intros results.
      apply keeps_store_bind; [apply keeps_store_wait|]. intros _. apply IH.
    + intros w. apply store_untouched_refl.
Qed.

(** The batches after a prefix are queried from the world the prefix
    leaves, unless a query of the prefix throws. *)
Lemma queryBatches_app JSON_parse model SUBSTANCES :
  forall (before rest : list (list string)) batchNo allResults w,
    queryBatches JSON_parse model SUBSTANCES (before ++ rest) batchNo allResults w =
    match queryBatches JSON_parse model SUBSTANCES before batchNo allResults w with
    | (Returned collected, w0) =>
        queryBatches JSON_parse model SUBSTANCES rest
                     (batchNo + List.length before) collected w0
    | other => other
    end.
Proof.
  induction before as [|batch before IH]; intros rest batchNo allResults w; simpl.
  - rewrite Nat.add_0_r. reflexivity.
  - unfold bind.
    destruct (logWithTimestamp INFO _ w) as [[[]|err|] w1]; try reflexivity.
    destruct (getAccessStatuses JSON_parse model SUBSTANCES batch w1)
      as [[results|err|] w2]; try reflexivity.
    destruct (wait 2000 w2) as [[[]|err|] w3]; try reflexivity.
    rewrite IH. rewrite Nat.add_succ_r. reflexivity.
Qed.

(** A query that throws ends the loop with what it threw. *)
Lemma queryBatches_throws JSON_parse model SUBSTANCES
      (batch : list string) (rest : list (list string)) batchNo allResults w err w1 :
  getAccessStatuses JSON_parse model SUBSTANCES batch
    (logged INFO (MsgQuerying model (List.length SUBSTANCES) (List.length batch)
                              batchNo) w) = (Thrown err, w1) ->
  queryBatches JSON_parse model SUBSTANCES (batch :: rest) batchNo allResults w =
  (Thrown err, w1).
Proof.
  intros H. simpl. unfold bind. simpl. unfold logged in H. rewrite H. reflexivity.
Qed.

Lemma run_main_with JSON_parse model SUBSTANCES COUNTRIES batchSize w :
  run (main_with JSON_parse model SUBSTANCES COUNTRIES batchSize) w =
  match collect JSON_parse model SUBSTANCES COUNTRIES batchSize
                (logged INFO MsgStarted w) with
  | (Returned allResults, w1) =>
      run (upsertRecords allResults ;; logWithTimestamp INFO MsgFinished) w1
  | (Thrown err, w1) => (ExitsWith 1, logged ERROR (MsgFatal err) w1)
  | (Unfinished, w1) => (NeverExits, w1)
  end.
Proof.
  assert (Hmain : main_with JSON_parse model SUBSTANCES COUNTRIES batchSize w =
                  bind (collect JSON_parse model SUBSTANCES COUNTRIES batchSize)
                       (fun allResults =>
                          upsertRecords allResults ;;
                          logWithTimestamp INFO MsgFinished)
                       (logged INFO MsgStarted w))
    by reflexivity.
  unfold run at 1. rewrite Hmain. unfold bind at 1.
  destruct (collect JSON_parse model SUBSTANCES COUNTRIES batchSize _)
    as [[allResults|err|] w1]; reflexivity.
Qed.

(** C9.  (1) When the loop of [main] throws, whatever the cause, the run
    ends with exit code 1 and the store was never called: not a row was
    read or written.  (2) A run in which the store was called at all is
    one whose loop went through all its batches and returned.  (3) The
    loop throws as soon as the query of one batch does (its retries ran
    out, the oracle's failure is not one that is retried, or the reply
    cannot be used): with the batches before it collected, the run ends
    with exit code 1 and what that query threw, and the records of the
    batches before it are never taken to the store. *)
Theorem no_partial_reconciliation
        JSON_parse (model : string) (SUBSTANCES COUNTRIES : list string)
        (batchSize : nat) (w : World) :
  let program := main_with JSON_parse model SUBSTANCES COUNTRIES batchSize in
  let started := logged INFO MsgStarted w in
  (forall err w1,
      collect JSON_parse model SUBSTANCES COUNTRIES batchSize started =
      (Thrown err, w1) ->
      run program w = (ExitsWith 1, logged ERROR (MsgFatal err) w1) /\
      store_calls (snd (run program w)) = store_calls w /\
      table (snd (run program w)) = table w) /\
  (store_calls (snd (run program w)) <> store_calls w ->
   exists allResults w1,
     collect JSON_parse model SUBSTANCES COUNTRIES batchSize started =
     (Returned allResults, w1)) /\
  (forall before batch rest collected w0 err w1,
      0 < batchSize ->
      planBatches (S (List.length COUNTRIES)) COUNTRIES batchSize 0 =
        Some (before ++ batch :: rest) ->
      queryBatches JSON_parse model SUBSTANCES before 1 [] started =
        (Returned collected, w0) ->
      getAccessStatuses JSON_parse model SUBSTANCES batch
        (logged INFO (MsgQuerying model (List.length SUBSTANCES)
                                  (List.length batch) (1 + List.length before)) w0) =
        (Thrown err, w1) ->
      run program w = (ExitsWith 1, logged ERROR (MsgFatal err) w1) /\
      store_calls (snd (run program w)) = store_calls w /\
      table (snd (run program w)) = table w).
Proof.
  intros program started.
  pose proof (keeps_store_collect_loop JSON_parse model SUBSTANCES COUNTRIES
                batchSize (S (List.length COUNTRIES)) 0 [] started) as Hkeep.
  fold (collect JSON_parse model SUBSTANCES COUNTRIES batchSize) in Hkeep.
  pose proof (run_main_with JSON_parse model SUBSTANCES COUNTRIES batchSize w)
    as Hrun.
  fold program started in Hrun.
  assert (Hthrown : forall err w1,
             collect JSON_parse model SUBSTANCES COUNTRIES batchSize started =
             (Thrown err, w1) ->
             run program w = (ExitsWith 1, logged ERROR (MsgFatal err) w1) /\
             store_calls (snd (run program w)) = store_calls w /\
             table (snd (run program w)) = table w).
  { intros err w1 H. rewrite H in Hrun, Hkeep. simpl in Hkeep.
    destruct Hkeep as (Hcalls & Htable & _).
    rewrite Hrun. simpl. split; [reflexivity|]. split; assumption. }
  split; [exact Hthrown|]. split.
  - destruct (collect JSON_parse model SUBSTANCES COUNTRIES batchSize started)
      as [[allResults|err|] w1] eqn:Hcollect.
    + intros _. exists allResults, w1. reflexivity.
    + intros H. exfalso. apply H.
      exact (proj1 (proj2 (Hthrown err w1 eq_refl))).
    + simpl in Hkeep. destruct Hkeep as (Hcalls & _).
      rewrite Hrun. simpl. intros H. contradiction.
  - intros before batch rest collected w0 err w1 HB Hplan Hbefore Hquery.
    apply Hthrown. unfold collect.
    rewrite (collect_loop_walks_plan JSON_parse model SUBSTANCES COUNTRIES
               batchSize HB _ _ _ _ Hplan).
    rewrite Nat.Div0.div_0_l. simpl (0 + 1).
    rewrite queryBatches_app, Hbefore.
    apply queryBatches_throws. exact Hquery.
Qed.

(** A run of the program itself, catalog of 194 codes and batches of 25:
    the oracle answers two batches and refuses the third.  The run ends
    with exit code 1, and the records of the two batches it had were
    never taken to the store.  And a run over two scopes that does reach
    the store is one whose loop returned. *)
Lemma no_partial_reconciliation_witness :
  (let w := fresh (refuses_after 2 (Some wrapped_text)) no_faults in
   fst (run (main parse_sample) w) = ExitsWith 1 /\
   List.length (oracle_requests (snd (run (main parse_sample) w))) = 3 /\
   store_calls (snd (run (main parse_sample) w)) = [] /\
   table (snd (run (main parse_sample) w)) = []) /\
  (let w := fresh (always_replies (Some wrapped_text)) no_faults in
   exists allResults w1,
     collect parse_sample "gpt-4o-mini" ["Ketamine"] ["US"; "CA"] 25
             (logged INFO MsgStarted w) = (Returned allResults, w1)) /\
  (let w := fresh (refuses_after 1 (Some wrapped_text)) no_faults in
   let program := main_with parse_sample "gpt-4o-mini" ["Ketamine"]
                            ["US"; "CA"; "MX"] 2 in
   fst (run program w) = ExitsWith 1 /\
   store_calls (snd (run program w)) = []).
Proof.
  split; [|split].
  - intros w.
    pose (stopped := collect parse_sample "gpt-4o-mini" SUBSTANCES COUNTRIES 25
                             (logged INFO MsgStarted w)).
    assert (Hstop : collect parse_sample "gpt-4o-mini" SUBSTANCES COUNTRIES 25
                            (logged INFO MsgStarted w) =
                    (Thrown (ApiError (Some 400%Z) "Bad Request"), snd stopped))
      by (vm_compute; reflexivity).
    destruct (proj1 (no_partial_reconciliation parse_sample "gpt-4o-mini"
                       SUBSTANCES COUNTRIES 25 w) _ _ Hstop)
      as (Hrun & Hcalls & Htable).
    split; [exact (f_equal fst Hrun)|].
    split; [|split; [exact Hcalls | exact Htable]].
    unfold main. rewrite (f_equal snd Hrun). vm_compute. reflexivity.
  - intros w.
    apply (proj1 (proj2 (no_partial_reconciliation parse_sample "gpt-4o-mini"
                           ["Ketamine"] ["US"; "CA"] 25 w))).
    vm_compute. discriminate.
  - intros w program.
    pose (started := logged INFO MsgStarted w).
    pose (first := queryBatches parse_sample "gpt-4o-mini" ["Ketamine"]
                                [["US"; "CA"]] 1 [] started).
    pose (second := getAccessStatuses parse_sample "gpt-4o-mini" ["Ketamine"] ["MX"]
                      (logged INFO (MsgQuerying "gpt-4o-mini" 1 1 2) (snd first))).
    destruct (proj2 (proj2 (no_partial_reconciliation parse_sample "gpt-4o-mini"
                              ["Ketamine"] ["US"; "CA"; "MX"] 2 w))
                    [["US"; "CA"]] ["MX"] [] [ketamine_us_banned] (snd first)
                    (ApiError (Some 400%Z) "Bad Request") (snd second))
      as (Hrun & Hcalls & _).
    + repeat constructor.
    + reflexivity.
    + vm_compute. reflexivity.
    + vm_compute. reflexivity.
    + split; [exact (f_equal fst Hrun) | exact Hcalls].
Defined.

(** ** Every loop ends *)

Lemma finishes_bind {A B} (m : M A) (k : A -> M B) :
  finishes m -> (forall a, finishes (k a)) -> finishes (bind m k).
Proof.
  intros Hm Hk w. unfold bind. specialize (Hm w).
  destruct (m w) as [[a|err|] w1]; simpl in *;
    [apply Hk | discriminate | contradiction].
Qed.

Lemma finishes_log level msg : finishes (logWithTimestamp level msg).
Proof. intros w. discriminate. Qed.

Lemma finishes_wait delay : finishes (wait delay).
Proof. intros w. discriminate. Qed.

Lemma finishes_createCompletion req : finishes (createCompletion req).
Proof.
  intros w. unfold createCompletion. destruct (oracle w _); discriminate.
Qed.

Lemma extractRecords_finishes JSON_parse raw :
  extractRecords JSON_parse raw <> Unfinished.
Proof.
  unfold extractRecords. destruct raw as [raw|]; [|discriminate].
  destruct (String.eqb raw ""); [discriminate|].
  destruct (JSON_parse raw) as [parsed|]; [|discriminate].
  destruct (negb (isArray parsed)).
  - destruct (Object_values parsed) as [values|]; [|discriminate].
    destruct (find isArray values) as [[]|]; discriminate.
  - destruct parsed; discriminate.
Qed.

Lemma finishes_getAccessStatuses JSON_parse model substances countries :
  finishes (getAccessStatuses JSON_parse model substances countries).
Proof.
  unfold getAccessStatuses. apply finishes_bind.
  - intros w. apply withRetry_finishes. apply finishes_createCompletion.
  - intros response w. apply extractRecords_finishes.
Qed.

Lemma finishes_logFormatted level msg fields :
  finishes (logFormatted level msg fields).
Proof.
  intros w. destruct (logFormatted_cases level msg fields w) as [H|H];
    rewrite H; discriminate.
Qed.

Lemma finishes_upsertFields s c st : finishes (upsertFields s c st).
Proof.
  intros w. unfold upsertFields, bind, store_select, now, store_insert, store_update.
  destruct (select_result w s c) as [[existing|] [message|]]; simpl;
    try apply finishes_logFormatted.
  - destruct (strict_eqb (row_access_status existing) st); simpl;
      [apply finishes_logFormatted|].
    destruct (store_faults w _); apply finishes_logFormatted.
  - destruct (store_faults w _); apply finishes_logFormatted.
Qed.

Lemma finishes_upsertRecords records : finishes (upsertRecords records).
Proof.
  induction records as [|rec rest IH]; simpl.
  - intros w. discriminate.
  - apply finishes_bind; [|intros _; exact IH].
    unfold upsertRecord. destruct (nullish rec).
    + intros w. discriminate.
    + apply finishes_upsertFields.
Qed.

(** With a positive batch size the loop of [main] ends within the turns
    it is given, and so does the run. *)
Lemma collect_loop_finishes JSON_parse model SUBSTANCES COUNTRIES batchSize :
  0 < batchSize ->
  forall fuel i allResults,
    List.length COUNTRIES - i < fuel ->
    finishes (collect_loop JSON_parse model SUBSTANCES COUNTRIES batchSize
                           fuel i allResults).
Proof.
  intros HB. induction fuel as [|fuel IH]; intros i allResults Hfuel; [lia|].
  simpl. destruct (Nat.ltb_spec i (List.length COUNTRIES)).
  - apply finishes_bind; [apply finishes_log|]. intros _.
    apply finishes_bind; [apply finishes_getAccessStatuses|]. intros results.
    apply finishes_bind; [apply finishes_wait|]. intros _.
    apply IH. lia.
  - intros w. discriminate.
Qed.

Lemma collect_finishes JSON_parse model SUBSTANCES COUNTRIES batchSize :
  0 < batchSize ->
  finishes (collect JSON_parse model SUBSTANCES COUNTRIES batchSize).
Proof.
  intros HB. unfold collect. apply collect_loop_finishes; [exact HB | lia].
Qed.

Lemma run_exits JSON_parse model SUBSTANCES COUNTRIES batchSize w :
  0 < batchSize ->
  fst (run (main_with JSON_parse model SUBSTANCES COUNTRIES batchSize) w)
  <> NeverExits.
Proof.
  intros HB.
  assert (Hmain : finishes (main_with JSON_parse model SUBSTANCES COUNTRIES batchSize)).
  { unfold main_with. apply finishes_bind; [apply finishes_log|]. intros _.
    apply finishes_bind; [apply collect_finishes; exact HB|]. intros allResults.
    apply finishes_bind; [apply finishes_upsertRecords|]. intros _.
    apply finishes_log. }
  unfold run. specialize (Hmain w).
  destruct (main_with _ _ _ _ _ w) as [[[]|err|] w1]; simpl in *;
    [discriminate | discriminate | contradiction].
Qed.

(** * Further properties *)

(** ** Backoff retrier, for any oracle *)

(** The loop on the oracle, whatever the oracle does: [n] transient
    failures, each followed by one line logged and one sleep, and then
    the call that decides. *)
Lemma withRetry_loop_trace req maxRetries :
  forall fuel attempt w,
    attempt <= maxRetries ->
    maxRetries < attempt + fuel ->
    exists n lines w',
      withRetry_loop fuel (createCompletion req) maxRetries attempt w =
      (outcome_result (oracle w (List.length (oracle_requests w) + n)), w') /\
      attempt + n <= maxRetries /\
      (forall k, k < n ->
                 transient (oracle w (List.length (oracle_requests w) + k)) = true) /\
      (transient (oracle w (List.length (oracle_requests w) + n)) = true ->
       attempt + n = maxRetries) /\
      oracle_requests w' = oracle_requests w ++ repeat req (S n) /\
      sleeps w' = sleeps w ++ map retryDelay (seq (S attempt) n) /\
      clock w' = (clock w + total (map retryDelay (seq (S attempt) n)))%Z /\
      log w' = log w ++ lines /\
      List.length lines = n /\
      Forall (fun line => log_level line = WARN) lines /\
      store_untouched w w'.
Proof.
  induction fuel as [|fuel IH]; intros attempt w Hle Hfuel; [lia|].
  simpl. unfold createCompletion at 1.
  destruct (oracle w (List.length (oracle_requests w))) as [content|status message]
    eqn:Ho.
  - exists 0, []. eexists. rewrite Nat.add_0_r, Ho. simpl.
    split; [reflexivity|]. rewrite !app_nil_r, Z.add_0_r.
    repeat split; try lia; try constructor; try discriminate.
  - destruct (Nat.ltb_spec maxRetries (S attempt)) as [Hlast|Hmore].
    + exists 0, []. eexists. rewrite Nat.add_0_r, Ho. simpl.
      split; [reflexivity|]. rewrite !app_nil_r, Z.add_0_r.
      repeat split; try lia; try constructor.
    + destruct (retryable (ApiError status message)) eqn:Hr.
      * unfold bind. simpl.
        match goal with |- context [withRetry_loop _ _ _ _ ?x] => set (w2 := x) end.
        destruct (IH (S attempt) w2 Hmore ltac:(lia))
          as (n & lines & w' & Hrun & Hn & Hbefore & Hlast & Hreqs & Hsleeps
              & Hclock & Hlog & Hlen & Hwarn & Hstore).
        assert (Hidx : forall k,
                   oracle w2 (List.length (oracle_requests w2) + k) =
                   oracle w (List.length (oracle_requests w) + S k)).
        { intros k. subst w2. simpl. rewrite length_app. simpl.
          f_equal. lia. }
        exists (S n). eexists. exists w'.
        rewrite Hrun, !Hidx. split; [reflexivity|].
        split; [lia|]. split; [|split; [|split; [|split; [|split; [|split]]]]].
        -- intros [|k] Hk.
           ++ rewrite Nat.add_0_r, Ho. exact Hr.
           ++ rewrite <- Hidx. apply Hbefore. lia.
        -- intros Ht. rewrite <- Hidx in Ht. specialize (Hlast Ht). lia.
        -- rewrite Hreqs. subst w2. simpl. rewrite <- app_assoc. reflexivity.
        -- rewrite Hsleeps. subst w2. simpl. rewrite <- app_assoc. reflexivity.
        -- rewrite Hclock. subst w2. simpl. unfold total. simpl. lia.
        -- rewrite Hlog. subst w2. simpl. rewrite <- app_assoc. reflexivity.
        -- split; [simpl; rewrite Hlen; reflexivity|].
           split; [constructor; [reflexivity | exact Hwarn]|].
           destruct Hstore as (A1 & A2 & A3). repeat split; assumption.
      * exists 0, []. eexists. rewrite Nat.add_0_r, Ho. simpl.
        split; [reflexivity|]. rewrite !app_nil_r, Z.add_0_r.
        repeat split; try lia; try constructor; try (rewrite Hr; discriminate).
Qed.

(** X1.  Whatever the oracle does, [withRetry] on a call to it goes like
    this: for some [n <= maxRetries], the first [n] calls fail with a
    status of 429 or of 500 and more; each of them is followed by one
    WARN line and one sleep, the k-th of [min(2000 * 2^(k-1), 30000)]
    ms; call [n + 1] decides, and what it returns or throws is what
    [withRetry] returns or throws.  When that call fails with such a
    status too, all [maxRetries] retries were used.  In all, [n + 1]
    requests were sent, all the same. *)
Theorem withRetry_trace (req : Request) (maxRetries : nat) (w : World) :
  exists n lines w',
    withRetry (createCompletion req) maxRetries w =
    (outcome_result (oracle w (List.length (oracle_requests w) + n)), w') /\
    n <= maxRetries /\
    (forall k, k < n ->
               transient (oracle w (List.length (oracle_requests w) + k)) = true) /\
    (transient (oracle w (List.length (oracle_requests w) + n)) = true ->
     n = maxRetries) /\
    oracle_requests w' = oracle_requests w ++ repeat req (S n) /\
    sleeps w' = sleeps w ++ map retryDelay (seq 1 n) /\
    log w' = log w ++ lines /\
    List.length lines = n /\
    Forall (fun line => log_level line = WARN) lines.
Proof.
  destruct (withRetry_loop_trace req maxRetries (S maxRetries) 0 w
              ltac:(lia) ltac:(lia))
    as (n & lines & w' & Hrun & Hn & Hbefore & Hlast & Hreqs & Hsleeps
        & _ & Hlog & Hlen & Hwarn & _).
  exists n, lines, w'. unfold withRetry. rewrite Hrun.
  repeat split; auto.
Qed.

(** X2.  The delay before a retry, for the attempts the loop counts
    (from 1 on): it lies between 2000 and 30000 ms, it never shrinks
    from one attempt to the next, it doubles up to the fourth attempt
    and it is the cap of 30000 ms from the fifth on. *)
Theorem retryDelay_schedule (attempt : nat) :
  1 <= attempt ->
  (2000 <= retryDelay attempt <= 30000)%Z /\
  (retryDelay attempt <= retryDelay (S attempt))%Z /\
  (attempt <= 4 -> retryDelay attempt = (2000 * 2 ^ (Z.of_nat attempt - 1))%Z) /\
  (5 <= attempt -> retryDelay attempt = 30000%Z).
Proof.
  intros H. unfold retryDelay.
  assert (Hpow : (1 <= 2 ^ (Z.of_nat attempt - 1))%Z).
  { change 1%Z with (2 ^ 0)%Z at 1. apply Z.pow_le_mono_r; lia. }
  assert (Hstep : (2 ^ (Z.of_nat attempt - 1) <= 2 ^ (Z.of_nat (S attempt) - 1))%Z)
    by (apply Z.pow_le_mono_r; lia).
  split; [lia|]. split; [lia|]. split.
  - intros Hsmall.
    assert (2 ^ (Z.of_nat attempt - 1) <= 2 ^ 3)%Z
      by (apply Z.pow_le_mono_r; lia).
    change (2 ^ 3)%Z with 8%Z in *. lia.
  - intros Hbig.
    assert (2 ^ 4 <= 2 ^ (Z.of_nat attempt - 1))%Z
      by (apply Z.pow_le_mono_r; lia).
    change (2 ^ 4)%Z with 16%Z in *. lia.
Qed.

Lemma retryDelay_schedule_witness :
  (2000 <= retryDelay 3 <= 30000)%Z /\
  (retryDelay 3 <= retryDelay 4)%Z /\
  retryDelay 3 = 8000%Z.
Proof.
  destruct (retryDelay_schedule 3) as (Hbounds & Hmono & Hexact & _).
  - repeat constructor.
  - split; [exact Hbounds|]. split; [exact Hmono|].
    apply Hexact. repeat constructor.
Defined.

Lemma backoff_total (n : nat) :
  n <= 5 -> (total (map retryDelay (seq 1 n)) <= 60000)%Z.
Proof.
  intros H.
  destruct n as [|[|[|[|[|[|n]]]]]]; try lia; vm_compute; discriminate.
Qed.

(** ** Oracle client, for any oracle *)

(** X3.  What one query of a batch costs, whatever the oracle does and
    whatever comes of the reply: between one and six requests, all for
    the same model, subjects and scopes; at most 60000 ms slept between
    them; and no call to the store. *)
Theorem getAccessStatuses_cost
        JSON_parse (model : string) (substances countries : list string)
        (w : World) :
  exists n result w',
    getAccessStatuses JSON_parse model substances countries w = (result, w') /\
    result <> Unfinished /\
    n <= 5 /\
    oracle_requests w' =
    oracle_requests w ++ repeat (mkRequest model substances countries) (S n) /\
    sleeps w' = sleeps w ++ map retryDelay (seq 1 n) /\
    (clock w' - clock w <= 60000)%Z /\
    store_calls w' = store_calls w /\ table w' = table w.
Proof.
  destruct (withRetry_loop_trace (mkRequest model substances countries)
              default_maxRetries (S default_maxRetries) 0 w
              ltac:(lia) ltac:(lia))
    as (n & lines & w' & Hrun & Hn & _ & _ & Hreqs & Hsleeps & Hclock & _ & _ & _
        & Hcalls & Htable & _).
  unfold getAccessStatuses, bind, withRetry. rewrite Hrun.
  pose proof (backoff_total n Hn) as Htotal.
  destruct (oracle w (List.length (oracle_requests w) + n)) as [content|status message];
    simpl.
  - exists n. eexists. exists w'. split; [reflexivity|].
    split; [apply extractRecords_finishes|].
    repeat split; auto. lia.
  - exists n. eexists. exists w'. split; [reflexivity|].
    split; [discriminate|].
    repeat split; auto. lia.
Qed.

(** X4.  When the reply is an object, the first property that holds an
    array gives the records, whatever comes after it: the arrays of
    later properties are left out of the result. *)
Theorem first_array_wins
        JSON_parse (model : string) (substances countries : list string)
        (w : World) (raw : string)
        (before : list (string * JSValue)) (key : string)
        (records : list JSValue) (after : list (string * JSValue)) :
  oracle w (List.length (oracle_requests w)) = Replies (Some raw) ->
  raw <> "" ->
  JSON_parse raw = Some (JObj (before ++ (key, JArr records) :: after)) ->
  forallb (fun v => negb (isArray v)) (map snd before) = true ->
  fst (getAccessStatuses JSON_parse model substances countries w) =
  Returned records.
Proof.
  intros Ho Hne Hp Hb.
  rewrite (getAccessStatuses_reply _ _ _ _ _ _ Ho). simpl.
  apply (extractRecords_first_array _ _ before key records after); assumption.
Qed.

Lemma first_array_wins_witness :
  fst (getAccessStatuses parse_two_arrays "gpt-4o-mini" ["Ketamine"] ["US"; "CA"]
         (fresh (always_replies (Some two_arrays_text)) no_faults)) =
  Returned [ketamine_us_banned].
Proof.
  apply (first_array_wins parse_two_arrays "gpt-4o-mini" ["Ketamine"] ["US"; "CA"]
           (fresh (always_replies (Some two_arrays_text)) no_faults)
           two_arrays_text [("note", JStr "partial")] "results"
           [ketamine_us_banned]
           [("more", JArr [ketamine_us_banned; ketamine_us_banned])]);
    solve [reflexivity | discriminate].
Defined.

Lemma substring_prefix (m : nat) (s : string) :
  String.length (substring 0 m s) = Nat.min m (String.length s) /\
  prefix (substring 0 m s) s = true.
Proof.
  revert m. induction s as [|c s IH]; intros [|m]; simpl; auto.
  destruct (IH m) as [Hlen Hpre]. rewrite Hlen, Hpre.
  destruct (Ascii.ascii_dec c c); [auto | contradiction].
Qed.

(** X5.  When the content of the reply does not parse, the query throws
    an error that quotes the content from its start, and at most 200
    characters of it. *)
Theorem parse_failure_quotes_start
        JSON_parse (model : string) (substances countries : list string)
        (w : World) (raw : string) :
  oracle w (List.length (oracle_requests w)) = Replies (Some raw) ->
  raw <> "" ->
  JSON_parse raw = None ->
  exists head,
    fst (getAccessStatuses JSON_parse model substances countries w) =
    Thrown (ParseFailure head) /\
    String.length head = Nat.min 200 (String.length raw) /\
    prefix head raw = true.
Proof.
  intros Ho Hne Hp. exists (substring 0 200 raw).
  rewrite (getAccessStatuses_reply _ _ _ _ _ _ Ho). simpl.
  split; [|apply substring_prefix].
  unfold extractRecords. destruct (String.eqb_spec raw ""); [contradiction|].
  rewrite Hp. reflexivity.
Qed.

Lemma parse_failure_quotes_start_witness :
  exists head,
    fst (getAccessStatuses parse_sample "gpt-4o-mini" ["Ketamine"] ["US"; "CA"]
           (fresh (always_replies (Some "Sorry, I cannot help.")) no_faults)) =
    Thrown (ParseFailure head) /\
    String.length head = 21 /\
    prefix head "Sorry, I cannot help." = true.
Proof.
  apply (parse_failure_quotes_start parse_sample "gpt-4o-mini" ["Ketamine"]
           ["US"; "CA"]
           (fresh (always_replies (Some "Sorry, I cannot help.")) no_faults)
           "Sorry, I cannot help."); solve [reflexivity | discriminate].
Defined.

(** ** Reconciler, for any records and any store *)

Lemma select_none w s c :
  select_result w s c = (None, None) ->
  filter (row_matches s c) (table w) = [].
Proof.
  unfold select_result. destruct (store_faults w _); [discriminate|].
  destruct (filter (row_matches s c) (table w)) as [|r [|r' rows]];
    simpl; intros H; [reflexivity | discriminate | discriminate].
Qed.

(** What the body of the loop does, on any three fields and with any
    store: it sends the lookup and at most one write; the table is left
    as it was, or has one row more for a key that had none, or has the
    time, and the status when there is one, of the row found rewritten;
    and it ends with one log line, which formats fields of the record
    and statuses of the table only. *)
Lemma upsertFields_effect s c st w :
  exists w1 level msg fields writes,
    upsertFields s c st w = logFormatted level msg fields w1 /\
    log w1 = log w /\
    store_calls w1 = store_calls w ++ Select s c :: writes /\
    List.length writes <= 1 /\
    filter is_lookup writes = [] /\
    store_faults w1 = store_faults w /\
    (forall v, In v fields ->
               In v [s; c; st] \/
               exists r, In r (table w) /\ v = row_access_status r) /\
    ((table w1 = table w /\ next_id w1 = next_id w) \/
     (filter (row_matches s c) (table w) = [] /\
      table w1 = table w ++ [new_row w s c st] /\
      next_id w1 = (next_id w + 1)%Z) \/
     (exists existing,
         In existing (table w) /\
         table w1 = map (update_row (row_id existing) st (clock w)) (table w) /\
         next_id w1 = next_id w)).
Proof.
  assert (Hsc : forall v, In v [s; c] ->
                  In v [s; c; st] \/
                  exists r, In r (table w) /\ v = row_access_status r).
  { intros v [Hv|[Hv|[]]]; left; subst v; simpl; auto. }
  destruct (select_result w s c) as [[existing|] [message|]] eqn:Hsel.
  - rewrite (upsertFields_fetch_error _ _ _ _ _ _ Hsel).
    eexists. eexists. eexists. eexists. exists [].
    split; [reflexivity|]. repeat split; auto.
  - destruct (strict_eqb (row_access_status existing) st) eqn:Hst.
    + rewrite (upsertFields_skip _ _ _ _ _ Hsel Hst).
      eexists. eexists. eexists. eexists. exists [].
      split; [reflexivity|]. repeat split; auto.
    + destruct (store_faults w (S (List.length (store_calls w)))) as [message|] eqn:Hf.
      * rewrite (upsertFields_update_error _ _ _ _ _ _ Hsel Hst Hf).
        eexists. eexists. eexists. eexists. eexists.
        split; [reflexivity|]. simpl.
        rewrite <- app_assoc. simpl.
        split; [reflexivity|]. split; [reflexivity|].
        repeat split; auto.
      * rewrite (upsertFields_update _ _ _ _ _ Hsel Hst Hf).
        pose proof (select_found_in _ _ _ _ Hsel) as [Hin _].
        eexists. eexists. eexists. eexists. eexists.
        split; [reflexivity|]. simpl.
        rewrite <- app_assoc. simpl.
        split; [reflexivity|]. split; [reflexivity|].
        split; [auto|]. split; [reflexivity|]. split; [reflexivity|].
        split.
        -- intros v [Hv|[Hv|[Hv|[Hv|[]]]]]; subst v; auto.
           right. exists existing. auto.
        -- right. right. exists existing.
           split; [exact Hin|]. split; reflexivity.
  - rewrite (upsertFields_fetch_error _ _ _ _ _ _ Hsel).
    eexists. eexists. eexists. eexists. exists [].
    split; [reflexivity|]. repeat split; auto.
  - destruct (store_faults w (S (List.length (store_calls w)))) as [message|] eqn:Hf.
    + rewrite (upsertFields_insert_error _ _ _ _ _ Hsel Hf).
      eexists. eexists. eexists. eexists. eexists.
      split; [reflexivity|]. simpl.
      rewrite <- app_assoc. simpl.
      split; [reflexivity|]. split; [reflexivity|].
      repeat split; auto.
    + rewrite (upsertFields_insert _ _ _ _ Hsel Hf).
      eexists. eexists. eexists. eexists. eexists.
      split; [reflexivity|]. simpl.
      rewrite <- app_assoc. simpl.
      split; [reflexivity|]. split; [reflexivity|].
      split; [auto|]. split; [reflexivity|]. split; [reflexivity|].
      split; [intros v Hv; left; exact Hv|].
      right. left. split; [apply select_none; exact Hsel|]. split; reflexivity.
Qed.

(** The world the body of the loop leaves is the one the log line is
    formatted in, with that line added when it could be built. *)
Lemma logFormatted_world level msg fields w :
  table (snd (logFormatted level msg fields w)) = table w /\
  next_id (snd (logFormatted level msg fields w)) = next_id w /\
  store_calls (snd (logFormatted level msg fields w)) = store_calls w /\
  store_faults (snd (logFormatted level msg fields w)) = store_faults w /\
  clock (snd (logFormatted level msg fields w)) = clock w.
Proof.
  destruct (logFormatted_cases level msg fields w) as [H|H]; rewrite H;
    repeat split.
Qed.

(** A row sent with the fields [s] and [c] answers only to the lookup
    of [s] and [c]. *)
Lemma eq_filter_to_column (sent s : JSValue) :
  eq_filter sent (to_column s) = true -> sent = s.
Proof.
  intros H. pose proof (eq_filter_eq _ _ H) as E.
  destruct s; simpl in *; subst; try reflexivity.
  discriminate H.
Qed.

Lemma upsertFields_keeps_wf s c st w :
  store_wf w -> store_wf (snd (upsertFields s c st w)).
Proof.
  intros (Hids & Hold & Huniq).
  destruct (upsertFields_effect s c st w)
    as (w' & level & msg & fields & writes & Hrun & _ & _ & _ & _ & _ & _ & Hcases).
  rewrite Hrun. unfold store_wf.
  destruct (logFormatted_world level msg fields w') as (Ht & Hn & _).
  rewrite Ht, Hn.
  destruct Hcases as [(Htable & Hnext)
                     | [(Hnone & Htable & Hnext)
                       | (existing & Hin & Htable & Hnext)]];
    rewrite Htable, Hnext.
  - auto.
  - split; [|split].
    + rewrite map_app. simpl. apply NoDup_snoc; [exact Hids|].
      intros Hin. apply in_map_iff in Hin. destruct Hin as (r & Hid & Hr).
      specialize (Hold r Hr). lia.
    + intros r Hr. apply in_app_or in Hr. destruct Hr as [Hr|[Hr|[]]].
      * specialize (Hold r Hr). lia.
      * subst r. simpl. lia.
    + intros s' c'. rewrite filter_snoc, length_app.
      destruct (row_matches s' c' (new_row w s c st)) eqn:Hm; simpl.
      * unfold row_matches in Hm. apply andb_prop in Hm.
        destruct Hm as [Hs Hc]. simpl in Hs, Hc.
        apply eq_filter_to_column in Hs. apply eq_filter_to_column in Hc.
        subst s' c'. rewrite Hnone. simpl. lia.
      * specialize (Huniq s' c'). lia.
  - split; [|split].
    + rewrite map_map. erewrite map_ext; [exact Hids|].
      intros r. apply row_id_update.
    + intros r Hr. apply in_map_iff in Hr. destruct Hr as (r0 & Hr0 & Hin0).
      subst r. rewrite row_id_update. apply Hold. exact Hin0.
    + intros s' c'. rewrite filter_update, length_map. apply Huniq.
Qed.

(** X6.  The store stays well formed through a run, whatever the records
    are, whichever calls the store rejects and whether the run returns
    or throws: ids stay distinct, and no (subject, scope) key ever gets
    a second row. *)
Theorem upsertRecords_keeps_store_wf (records : list JSValue) (w : World) :
  store_wf w -> store_wf (snd (upsertRecords records w)).
Proof.
  revert w. induction records as [|rec rest IH]; intros w Hwf; [exact Hwf|].
  simpl. unfold bind, upsertRecord.
  destruct (nullish rec); [exact Hwf|].
  pose proof (upsertFields_keeps_wf (substance_of rec) (country_code_of rec)
                (access_status_of rec) w Hwf) as Hstep.
  destruct (upsertFields _ _ _ w) as [[[]|err|] w1]; simpl in Hstep;
    [apply IH; exact Hstep | exact Hstep | exact Hstep].
Qed.

Lemma upsertRecords_keeps_store_wf_witness :
  store_wf (snd (upsertRecords
                   [ketamine_us_banned; us_banned_no_substance;
                    ketamine_us_approved; JNull; mdma_ca_unknown]
                   (stocked [ketamine_us 7 "Unknown"]
                            (fault_at 3 "permission denied")))).
Proof.
  apply upsertRecords_keeps_store_wf.
  split; [|split].
  - repeat constructor. intros [].
  - intros r [Hr|[]]. subst r. reflexivity.
  - intros s c. simpl. destruct (row_matches s c _); simpl; repeat constructor.
Defined.

Lemma row_identity_update id st ts r :
  row_identity (update_row id st ts r) = row_identity r.
Proof. unfold update_row. destruct (row_id r =? id)%Z; reflexivity. Qed.

(** X7.  A run never deletes a row, never moves one, and never rewrites
    the id, the subject or the scope of one: whatever the records and
    the store's faults, and whether the run returns or throws, the rows
    of the table it leaves are, identity for identity and in order, the
    rows it found, followed by the rows it added. *)
Theorem upsertRecords_never_deletes (records : list JSValue) (w : World) :
  exists added,
    map row_identity (table (snd (upsertRecords records w))) =
    map row_identity (table w) ++ added.
Proof.
  revert w. induction records as [|rec rest IH]; intros w.
  - exists []. simpl. rewrite app_nil_r. reflexivity.
  - simpl. unfold bind, upsertRecord.
    destruct (nullish rec).
    + exists []. simpl. rewrite app_nil_r. reflexivity.
    + destruct (upsertFields_effect (substance_of rec) (country_code_of rec)
                  (access_status_of rec) w)
        as (w1 & level & msg & fields & writes & Hrun & _ & _ & _ & _ & _ & _
            & Hcases).
      rewrite Hrun.
      assert (Hstep : exists added1,
                 map row_identity (table w1) = map row_identity (table w) ++ added1).
      { destruct Hcases as [(Htable & _)
                           | [(_ & Htable & _) | (existing & _ & Htable & _)]];
          rewrite Htable.
        - exists []. rewrite app_nil_r. reflexivity.
        - rewrite map_app. eexists. reflexivity.
        - rewrite map_map. exists []. rewrite app_nil_r.
          apply map_ext. intros r. apply row_identity_update. }
      destruct Hstep as (added1 & Hstep).
      destruct (logFormatted_cases level msg fields w1) as [Hlog|Hlog];
        rewrite Hlog.
      * destruct (IH (logged level msg w1)) as (added & Hrest).
        rewrite Hrest. simpl. rewrite Hstep, <- app_assoc.
        eexists. reflexivity.
      * simpl. exists added1. exact Hstep.
Qed.






(** X21.  A record that has no row yet and whose status cannot be
    converted to text is written and then stops the run: the store takes
    the insert, the line that would report it cannot be built, the run
    throws with the new row in the table and nothing logged for the
    record, and the records after it are never looked up. *)
Theorem opaque_status_aborts_after_insert
        (before : list JSValue) (rec : JSValue) (rest : list JSValue)
        (w w0 : World) :
  upsertRecords before w = (Returned tt, w0) ->
  nullish rec = false ->
  let s := substance_of rec in
  let c := country_code_of rec in
  let st := access_status_of rec in
  select_result w0 s c = (None, None) ->
  store_faults w0 (S (List.length (store_calls w0))) = None ->
  printable st = false ->
  exists w1,
    upsertRecords (before ++ rec :: rest) w =
    (Thrown (TypeError "Cannot convert object to primitive value"), w1) /\
    table w1 = table w0 ++ [new_row w0 s c st] /\
    store_calls w1 = store_calls w0 ++ [Select s c; Insert s c st (clock w0)] /\
    log w1 = log w0.
Proof.
  intros Hb Hrec s c st Hsel Hf Hst.
  eexists. split.
  - apply (upsertRecords_stops before rec rest w w0 _ _ Hb).
    rewrite (upsertRecord_fields rec Hrec). fold s c st.
    rewrite (upsertFields_insert _ _ _ _ Hsel Hf).
    apply logFormatted_opaque. simpl. rewrite Hst.
    destruct (printable s), (printable c); reflexivity.
  - simpl. rewrite <- app_assoc. repeat split.
Qed.

Lemma opaque_status_aborts_after_insert_witness :
  exists w1,
    upsertRecords ([mdma_ca_unknown] ++ ketamine_us_opaque_status
                     :: [ketamine_us_banned])
                  (fresh always_400 no_faults) =
    (Thrown (TypeError "Cannot convert object to primitive value"), w1) /\
    table w1 =
    [mkRow 1 (JStr "MDMA") (JStr "CA") (JStr "Unknown") 0;
     mkRow 2 (JStr "Ketamine") (JStr "US") opaque 0] /\
    List.length (log w1) = 1.
Proof.
  destruct (opaque_status_aborts_after_insert
              [mdma_ca_unknown] ketamine_us_opaque_status [ketamine_us_banned]
              (fresh always_400 no_faults)
              (snd (upsertRecords [mdma_ca_unknown] (fresh always_400 no_faults)))
              eq_refl eq_refl eq_refl eq_refl eq_refl)
    as (w1 & Hrun & Htable & _ & Hlog).
  exists w1. split; [exact Hrun|]. split; [exact Htable|].
  rewrite Hlog. reflexivity.
Defined.

(** X9.  A record that is [null] stops the run where it stands: the
    destructuring throws a [TypeError]; what the records before it
    wrote stays written; the records after it are never looked at. *)
Theorem null_record_aborts
        (before : list JSValue) (rec : JSValue) (rest : list JSValue)
        (w w0 : World) :
  upsertRecords before w = (Returned tt, w0) ->
  nullish rec = true ->
  upsertRecords (before ++ rec :: rest) w =
  (Thrown (TypeError "Cannot destructure property 'substance'"), w0).
Proof.
  intros Hb Hnull. rewrite upsertRecords_app, Hb.
  simpl. unfold bind, upsertRecord. rewrite Hnull. reflexivity.
Qed.

Lemma null_record_aborts_witness :
  exists w0,
    upsertRecords [ketamine_us_banned; JNull; mdma_ca_unknown]
                  (fresh always_400 no_faults) =
    (Thrown (TypeError "Cannot destructure property 'substance'"), w0) /\
    table w0 = [ketamine_us 1 "Banned"].
Proof.
  exists (snd (upsertRecords [ketamine_us_banned] (fresh always_400 no_faults))).
  split; [|reflexivity].
  exact (null_record_aborts [ketamine_us_banned] JNull [mdma_ca_unknown]
           (fresh always_400 no_faults) _ eq_refl eq_refl).
Defined.

(** X10.  Reconciling a list in two parts is reconciling it whole: when
    the run over the first part returns, the run over the second part
    from the world it left ends as the run over both does; and when the
    first part throws, so does the whole, in the same world. *)
Theorem reconcile_in_parts (first second : list JSValue) (w w1 : World) :
  (upsertRecords first w = (Returned tt, w1) ->
   upsertRecords (first ++ second) w = upsertRecords second w1) /\
  (forall err,
      upsertRecords first w = (Thrown err, w1) ->
      upsertRecords (first ++ second) w = (Thrown err, w1)).
Proof.
  split.
  - intros H. rewrite upsertRecords_app, H. reflexivity.
  - intros err H. rewrite upsertRecords_app, H. reflexivity.
Qed.

Lemma reconcile_in_parts_witness :
  upsertRecords ([ketamine_us_banned; mdma_ca_unknown] ++ [ketamine_us_approved])
                (fresh always_400 no_faults) =
  upsertRecords [ketamine_us_approved]
                (snd (upsertRecords [ketamine_us_banned; mdma_ca_unknown]
                        (fresh always_400 no_faults))) /\
  upsertRecords ([JNull] ++ [ketamine_us_approved]) (fresh always_400 no_faults) =
  (Thrown (TypeError "Cannot destructure property 'substance'"),
   fresh always_400 no_faults).
Proof.
  split.
  - exact (proj1 (reconcile_in_parts [ketamine_us_banned; mdma_ca_unknown]
                    [ketamine_us_approved] (fresh always_400 no_faults) _) eq_refl).
  - exact (proj2 (reconcile_in_parts [JNull] [ketamine_us_approved]
                    (fresh always_400 no_faults) _) _ eq_refl).
Defined.

(** A run over records with text fields, with a reliable store whose
    statuses can be converted to text: it returns, the store stays as
    assumed, and a settled record whose key no record of the run has
    stays settled. *)
Lemma canonical_run_keeps_settled :
  forall (records : list JSValue) (w : World),
    Forall (fun rec => canonical rec = true) records ->
    reliable w -> store_wf w -> printable_statuses w ->
    exists w',
      upsertRecords records w = (Returned tt, w') /\
      reliable w' /\ store_wf w' /\ printable_statuses w' /\
      (forall p,
          canonical p = true -> settled w p ->
          (forall q, In q records ->
                     ~ (substance_of q = substance_of p /\
                        country_code_of q = country_code_of p)) ->
          settled w' p).
Proof.
  induction records as [|rec rest IH]; intros w Hcan Hrel Hwf Hprint.
  - exists w. simpl. auto.
  - inversion Hcan as [|? ? Hrec Hrest]; subst.
    destruct (upsertRecord_canonical w rec Hrel Hwf Hprint Hrec)
      as (w1 & Hrun & Hrel1 & Hwf1 & Hprint1 & _ & Hkeep).
    destruct (IH w1 Hrest Hrel1 Hwf1 Hprint1)
      as (w' & Hrun' & Hrel' & Hwf' & Hprint' & Hkeep').
    exists w'. rewrite (upsertRecords_cons rec rest w w1 Hrun).
    split; [exact Hrun'|]. split; [exact Hrel'|]. split; [exact Hwf'|].
    split; [exact Hprint'|].
    intros p Hp Hset Hother.
    apply Hkeep'; [exact Hp | | intros q Hq; apply Hother; right; exact Hq].
    apply Hkeep; [exact Hp | exact Hset |].
    intros Hs Hc. exfalso.
    apply (Hother rec (or_introl eq_refl)). split; congruence.
Qed.

(** X11.  The last word on a key wins.  Over records with text fields
    and with a store that rejects no call and holds statuses that can
    be converted to text, the run returns, and for a
    record that no later record shares its (subject, scope) key with,
    the table ends with exactly one row for that key, holding that
    record's status: whatever earlier records of the key said. *)
Theorem last_status_wins
        (before : list JSValue) (rec : JSValue) (rest : list JSValue) (w : World) :
  Forall (fun r => canonical r = true) (before ++ rec :: rest) ->
  reliable w -> store_wf w -> printable_statuses w ->
  (forall q, In q rest ->
             ~ (substance_of q = substance_of rec /\
                country_code_of q = country_code_of rec)) ->
  exists w',
    upsertRecords (before ++ rec :: rest) w = (Returned tt, w') /\
    settled w' rec.
Proof.
  intros Hcan Hrel Hwf Hprint Hlast.
  apply Forall_app in Hcan. destruct Hcan as [Hbefore Hcan].
  inversion Hcan as [|? ? Hrec Hrest]; subst.
  destruct (canonical_run_keeps_settled before w Hbefore Hrel Hwf Hprint)
    as (w0 & Hrun0 & Hrel0 & Hwf0 & Hprint0 & _).
  destruct (upsertRecord_canonical w0 rec Hrel0 Hwf0 Hprint0 Hrec)
    as (w1 & Hrun1 & Hrel1 & Hwf1 & Hprint1 & Hset1 & _).
  destruct (canonical_run_keeps_settled rest w1 Hrest Hrel1 Hwf1 Hprint1)
    as (w' & Hrun' & _ & _ & _ & Hkeep).
  exists w'. split.
  - rewrite (upsertRecords_step before rec rest w w0 w1 Hrun0 Hrun1). exact Hrun'.
  - apply Hkeep; assumption.
Qed.

Lemma last_status_wins_witness :
  exists w',
    upsertRecords ([ketamine_us_banned] ++ ketamine_us_approved :: [mdma_ca_unknown])
                  (fresh always_400 no_faults) = (Returned tt, w') /\
    settled w' ketamine_us_approved.
Proof.
  apply (last_status_wins [ketamine_us_banned] ketamine_us_approved
           [mdma_ca_unknown] (fresh always_400 no_faults)).
  - repeat constructor.
  - intros n. reflexivity.
  - split; [constructor|]. split; [intros r []|]. intros s c. simpl.
    apply le_S, le_n.
  - intros r [].
  - intros q [Hq|[]]. subst q. intros [Hs _]. discriminate Hs.
Defined.

(** ** The loop of main and the run, for any oracle *)

(** Batches queried one after the other, when the oracle answers every
    call with content that gives records. *)
Lemma queryBatches_in_order JSON_parse model SUBSTANCES (answer : nat -> list JSValue) :
  forall (batches : list (list string)) (batchNo : nat) (allResults : list JSValue)
         (w : World) (k0 : nat),
    (forall k, exists content,
        oracle w (List.length (oracle_requests w) + k) = Replies content /\
        extractRecords JSON_parse content = Returned (answer (k0 + k))) ->
    exists w',
      queryBatches JSON_parse model SUBSTANCES batches batchNo allResults w =
      (Returned (allResults ++
                 List.concat (map answer (seq k0 (List.length batches)))), w') /\
      oracle_requests w' =
      oracle_requests w ++ map (mkRequest model SUBSTANCES) batches /\
      sleeps w' = sleeps w ++ repeat 2000%Z (List.length batches).
Proof.
  induction batches as [|batch rest IH]; intros batchNo allResults w k0 Hall.
  - exists w. simpl. rewrite !app_nil_r. auto.
  - destruct (Hall 0) as (content & Ho & Hx). rewrite Nat.add_0_r in Ho, Hx.
    simpl. unfold bind at 1. simpl.
    match goal with
    | |- context [bind (getAccessStatuses _ _ _ _) _ ?x] => set (w1 := x)
    end.
    assert (Ho1 : oracle w1 (List.length (oracle_requests w1)) = Replies content)
      by exact Ho.
    unfold bind at 1.
    rewrite (getAccessStatuses_reply JSON_parse model SUBSTANCES batch w1 content Ho1).
    rewrite Hx. unfold bind at 1. simpl.
    match goal with |- context [queryBatches _ _ _ _ _ _ ?x] => set (w3 := x) end.
    destruct (IH (S batchNo) (allResults ++ answer k0) w3 (S k0))
      as (w' & Hrun & Hreqs & Hsleeps).
    + intros k. destruct (Hall (S k)) as (c & Hoc & Hxc).
      exists c. split.
      * rewrite <- Hoc. subst w3 w1. simpl. rewrite length_app. simpl.
        f_equal. lia.
      * rewrite Hxc. f_equal. f_equal. lia.
    + exists w'. rewrite Hrun. split; [rewrite <- app_assoc; reflexivity|].
      rewrite Hreqs, Hsleeps. subst w3 w1. simpl.
      rewrite <- !app_assoc. split; reflexivity.
Qed.

(** X12.  When the oracle answers every call at once with content that
    gives records, the loop of [main] returns the records of all the
    batches, put end to end in the order of the batches: nothing is left
    out and nothing is moved.  It sends one request for each batch, with
    the whole list of subjects and the scopes of that batch, and sleeps
    2000 ms after each, the last one too. *)
Theorem collect_in_order
        JSON_parse (model : string) (SUBSTANCES COUNTRIES : list string)
        (batchSize : nat) (answer : nat -> list JSValue) (w : World) :
  0 < batchSize ->
  (forall k, exists content,
      oracle w (List.length (oracle_requests w) + k) = Replies content /\
      extractRecords JSON_parse content = Returned (answer k)) ->
  exists batches w',
    planBatches (S (List.length COUNTRIES)) COUNTRIES batchSize 0 = Some batches /\
    collect JSON_parse model SUBSTANCES COUNTRIES batchSize w =
    (Returned (List.concat (map answer (seq 0 (List.length batches)))), w') /\
    oracle_requests w' =
    oracle_requests w ++ map (mkRequest model SUBSTANCES) batches /\
    sleeps w' = sleeps w ++ repeat 2000%Z (List.length batches).
Proof.
  intros HB Hall.
  destruct (planBatches_from string COUNTRIES batchSize HB
              (S (List.length COUNTRIES)) 0 ltac:(lia))
    as (batches & Hplan & _).
  destruct (queryBatches_in_order JSON_parse model SUBSTANCES answer
              batches 1 [] w 0 Hall) as (w' & Hrun & Hreqs & Hsleeps).
  exists batches, w'. split; [exact Hplan|].
  split; [|split; assumption].
  unfold collect.
  rewrite (collect_loop_walks_plan JSON_parse model SUBSTANCES COUNTRIES
             batchSize HB _ _ _ _ Hplan).
  rewrite Nat.Div0.div_0_l. exact Hrun.
Qed.

Lemma collect_in_order_witness :
  exists w',
    collect parse_sample "gpt-4o-mini" ["Ketamine"] ["US"; "CA"; "MX"] 2
            (fresh (always_replies (Some wrapped_text)) no_faults) =
    (Returned [ketamine_us_banned; ketamine_us_banned], w') /\
    oracle_requests w' =
    [mkRequest "gpt-4o-mini" ["Ketamine"] ["US"; "CA"];
     mkRequest "gpt-4o-mini" ["Ketamine"] ["MX"]] /\
    sleeps w' = [2000; 2000]%Z.
Proof.
  destruct (collect_in_order parse_sample "gpt-4o-mini" ["Ketamine"]
              ["US"; "CA"; "MX"] 2 (fun _ => [ketamine_us_banned])
              (fresh (always_replies (Some wrapped_text)) no_faults))
    as (batches & w' & Hplan & Hrun & Hreqs & Hsleeps).
  - repeat constructor.
  - intros k. exists (Some wrapped_text). split; reflexivity.
  - inversion Hplan; subst batches.
    exists w'. split; [exact Hrun|]. split; [exact Hreqs | exact Hsleeps].
Defined.

Lemma log_grows_refl w : log_grows w w.
Proof. exists []. rewrite app_nil_r. reflexivity. Qed.

Lemma log_grows_trans w1 w2 w3 :
  log_grows w1 w2 -> log_grows w2 w3 -> log_grows w1 w3.
Proof.
  intros [l1 H1] [l2 H2]. exists (l1 ++ l2).
  rewrite H2, H1, app_assoc. reflexivity.
Qed.

Lemma appends_log_bind {A B} (m : M A) (k : A -> M B) :
  appends_log m -> (forall a, appends_log (k a)) -> appends_log (bind m k).
Proof.
  intros Hm Hk w. unfold bind. specialize (Hm w).
  destruct (m w) as [[a|err|] w1]; simpl in *; try exact Hm.
  apply (log_grows_trans w w1); [exact Hm | apply Hk].
Qed.

Lemma appends_log_log level msg : appends_log (logWithTimestamp level msg).
Proof. intros w. eexists. reflexivity. Qed.

Lemma appends_log_wait delay : appends_log (wait delay).
Proof. intros w. exists []. simpl. rewrite app_nil_r. reflexivity. Qed.

Lemma appends_log_getAccessStatuses JSON_parse model substances countries :
  appends_log (getAccessStatuses JSON_parse model substances countries).
Proof.
  intros w.
  destruct (withRetry_loop_trace (mkRequest model substances countries)
              default_maxRetries (S default_maxRetries) 0 w
              ltac:(lia) ltac:(lia))
    as (n & lines & w' & Hrun & _ & _ & _ & _ & _ & _ & Hlog & _).
  unfold getAccessStatuses, bind, withRetry. rewrite Hrun.
  destruct (outcome_result _); simpl; exists lines; exact Hlog.
Qed.

Lemma appends_log_collect_loop JSON_parse model SUBSTANCES COUNTRIES batchSize :
  forall fuel i allResults,
    appends_log (collect_loop JSON_parse model SUBSTANCES COUNTRIES batchSize
                              fuel i allResults).
Proof.
  induction fuel as [|fuel IH]; intros i allResults.
  - intros w. apply log_grows_refl.
  - simpl. destruct (i <? List.length COUNTRIES)%nat.
    + apply appends_log_bind; [apply appends_log_log|]. intros _.
      apply appends_log_bind; [apply appends_log_getAccessStatuses|].
      intros results.
      apply appends_log_bind; [apply appends_log_wait|]. intros _. apply IH.
    + intros w. apply log_grows_refl.
Qed.

Lemma appends_log_upsertRecords records : appends_log (upsertRecords records).
Proof.
  induction records as [|rec rest IH]; simpl.
  - intros w. apply log_grows_refl.
  - apply appends_log_bind; [|intros _; exact IH].
    intros w. unfold upsertRecord. destruct (nullish rec).
    + apply log_grows_refl.
    + destruct (upsertFields_effect (substance_of rec) (country_code_of rec)
                  (access_status_of rec) w)
        as (w1 & level & msg & fields & writes & Hrun & Hlog & _).
      rewrite Hrun.
      destruct (logFormatted_cases level msg fields w1) as [H|H]; rewrite H.
      * eexists. simpl. rewrite Hlog. reflexivity.
      * exists []. simpl. rewrite app_nil_r. exact Hlog.
Qed.

(** X13.  What a run logs, whatever the oracle and the store do.  The
    first line the run adds reports the start.  When the process ends
    normally, the last line reports the end; when it ends with an exit
    code, the code is 1 and the last line is the ERROR line of the
    failure.  Nothing logged before the run is lost.  A run that does
    not end is one whose batch size is 0. *)
Theorem run_log_brackets
        JSON_parse (model : string) (SUBSTANCES COUNTRIES : list string)
        (batchSize : nat) (w : World) :
  let outcome := run (main_with JSON_parse model SUBSTANCES COUNTRIES batchSize) w in
  match fst outcome with
  | ExitsNormally =>
      exists middle,
        map log_msg (log (snd outcome)) =
        map log_msg (log w) ++ MsgStarted :: middle ++ [MsgFinished]
  | ExitsWith code =>
      code = 1%Z /\
      exists err middle last,
        log (snd outcome) = log w ++ middle ++ [last] /\
        log_level last = ERROR /\ log_msg last = MsgFatal err /\
        exists others, map log_msg middle = MsgStarted :: others
  | NeverExits => batchSize = 0
  end.
Proof.
  intros outcome. subst outcome. rewrite run_main_with.
  set (started := logged INFO MsgStarted w).
  pose proof (appends_log_collect_loop JSON_parse model SUBSTANCES COUNTRIES
                batchSize (S (List.length COUNTRIES)) 0 [] started) as Hcollect.
  fold (collect JSON_parse model SUBSTANCES COUNTRIES batchSize) in Hcollect.
  pose proof (collect_finishes JSON_parse model SUBSTANCES COUNTRIES batchSize)
    as Hends.
  destruct (collect JSON_parse model SUBSTANCES COUNTRIES batchSize started)
    as [[allResults|err|] w1] eqn:Hc; simpl in Hcollect;
    destruct Hcollect as [l1 Hl1].
  - unfold run, bind.
    pose proof (appends_log_upsertRecords allResults w1) as Hup.
    pose proof (finishes_upsertRecords allResults w1) as Hfin.
    destruct (upsertRecords allResults w1) as [[[]|err|] w2]; simpl in *;
      destruct Hup as [l2 Hl2].
    + exists (map log_msg l1 ++ map log_msg l2).
      rewrite Hl2, Hl1. subst started. simpl.
      repeat rewrite map_app. simpl. repeat rewrite <- app_assoc.
      reflexivity.
    + split; [reflexivity|].
      exists err, (mkLog (clock w) INFO MsgStarted :: l1 ++ l2). eexists.
      split.
      * rewrite Hl2, Hl1. subst started. simpl.
        repeat rewrite <- app_assoc. simpl. repeat rewrite <- app_assoc. reflexivity.
      * split; [reflexivity|]. split; [reflexivity|].
        eexists. simpl. reflexivity.
    + contradiction.
  - split; [reflexivity|].
    exists err, (mkLog (clock w) INFO MsgStarted :: l1). eexists.
    split.
    + simpl. rewrite Hl1. subst started. simpl.
      repeat rewrite <- app_assoc. reflexivity.
    + split; [reflexivity|]. split; [reflexivity|].
      eexists. simpl. reflexivity.
  - simpl. destruct batchSize as [|b]; [reflexivity|].
    exfalso. apply (Hends ltac:(lia) started). rewrite Hc. reflexivity.
Qed.

(** ** The route of server.js *)

(** The handler, case by case. *)
Ltac handler_cases sw parse :=
  unfold searchSubstance, server_error;
  repeat match goal with
         | |- context [nullish ?b] => destruct (nullish b) eqn:?
         | |- context [falsy ?v] => destruct (falsy v) eqn:?
         | |- context [printable ?v] => destruct (printable v) eqn:?; cbn [negb]
         | |- context [sv_oracle sw ?n] => destruct (sv_oracle sw n) as [[?|]|? ?] eqn:?
         | |- context [parse ?t] => destruct (parse t) eqn:?
         | |- context [Object_entries ?v] => destruct (Object_entries v) eqn:?
         | |- context [sv_store sw ?n] => destruct (sv_store sw n) eqn:?
         end;
  cbn [fst snd status body sv_posted sv_asked post ask console].

Lemma snoc_differs {A} (l : list A) (x : A) : l ++ [x] <> l.
Proof.
  intros H. apply (f_equal (@List.length A)) in H.
  rewrite length_app in H. simpl in H. lia.
Qed.

(** X15.  The route answers every request whose body can be
    destructured, and the status says what happened: 400 exactly when
    the body has no substance (none, [null], an empty text, 0 or
    [false]); 200 only when one POST was made and the store took it, and
    then the body counts the rows of that POST; 500 with an error body
    in every other case.  It asks the oracle at most once and posts at
    most once. *)
Theorem searchSubstance_status JSON_parse (req_body : JSValue) (sw : ServerWorld) :
  nullish req_body = false ->
  exists response sw',
    searchSubstance JSON_parse req_body sw = (Returned response, sw') /\
    (status response = 400%Z <-> falsy (get_prop req_body "substance") = true) /\
    (status response = 200%Z ->
     exists rows,
       sv_posted sw' = sv_posted sw ++ [rows] /\
       sv_store sw (List.length (sv_posted sw)) = PostOk /\
       body response = SuccessBody (List.length rows)) /\
    (status response = 200%Z \/
     (status response = 400%Z \/ status response = 500%Z) /\
     exists error details, body response = ErrorBody error details) /\
    List.length (sv_asked sw') <= S (List.length (sv_asked sw)) /\
    List.length (sv_posted sw') <= S (List.length (sv_posted sw)).
Proof.
  intros Hbody.
  handler_cases sw JSON_parse; try discriminate;
    eexists; eexists; (split; [reflexivity|]);
    cbn [fst snd status body sv_posted sv_asked post ask console];
    rewrite ?length_app; simpl;
    (split; [split; intros; discriminate || reflexivity|]);
    (split; [intros; try discriminate; eexists; repeat split; eassumption|]);
    (split; [first [left; reflexivity | right; split; [auto|]; eexists; eexists; reflexivity]|]);
    split; lia.
Qed.

Lemma searchSubstance_status_witness :
  exists response sw',
    searchSubstance parse_server ask_ketamine
                    (idle (always_replies (Some by_country_text)) always_ok) =
    (Returned response, sw') /\
    status response = 200%Z /\
    body response = SuccessBody 2.
Proof.
  destruct (searchSubstance_status parse_server ask_ketamine
              (idle (always_replies (Some by_country_text)) always_ok) eq_refl)
    as (response & sw' & Hrun & _).
  exists response, sw'. split; [exact Hrun|].
  assert (Hr : response =
               mkResponse 200 (SuccessBody 2)).
  { vm_compute in Hrun. inversion Hrun. reflexivity. }
  rewrite Hr. split; reflexivity.
Defined.

(** X16.  The route posts to the store only on a reply it could read:
    when a POST was made, the request had a substance, the oracle had
    been asked about it once and had answered, the answer had parsed,
    and the rows posted are the entries of the parsed value, one row for
    each in their order, each with the substance of the request, the
    name of the entry as country code and its value as status. *)
Theorem searchSubstance_posts_entries
        JSON_parse (req_body : JSValue) (sw : ServerWorld) :
  let substance := get_prop req_body "substance" in
  let sw' := snd (searchSubstance JSON_parse req_body sw) in
  sv_posted sw' <> sv_posted sw ->
  falsy substance = false /\
  sv_asked sw' = sv_asked sw ++ [substance] /\
  exists content parsed entries,
    sv_oracle sw (List.length (sv_asked sw)) = Replies content /\
    JSON_parse (match content with Some raw => raw | None => "null" end) =
      Some parsed /\
    Object_entries parsed = Some entries /\
    sv_posted sw' = sv_posted sw ++ [rows_of substance entries] /\
    map posted_country_code (rows_of substance entries) = map fst entries /\
    map posted_access_status (rows_of substance entries) = map snd entries /\
    Forall (fun row => posted_substance row = substance)
           (rows_of substance entries).
Proof.
  intros substance sw'. subst sw' substance.
  assert (Hrows : forall v entries,
             map posted_country_code (rows_of v entries) = map fst entries /\
             map posted_access_status (rows_of v entries) = map snd entries /\
             Forall (fun row => posted_substance row = v) (rows_of v entries)).
  { intros v entries. unfold rows_of. rewrite !map_map. simpl.
    split; [reflexivity|]. split; [reflexivity|].
    apply Forall_forall. intros row Hin. apply in_map_iff in Hin.
    destruct Hin as (entry & Hrow & _). subst row. reflexivity. }
  handler_cases sw JSON_parse; intros Hposted;
    try (exfalso; apply Hposted; reflexivity);
    (split; [reflexivity|]); (split; [reflexivity|]);
    eexists; eexists; eexists;
    (split; [reflexivity|]); (split; [eassumption|]);
    (split; [eassumption|]); (split; [reflexivity|]); apply Hrows.
Qed.

Lemma searchSubstance_posts_entries_witness :
  sv_posted (snd (searchSubstance parse_server ask_ketamine
                    (idle (always_replies (Some by_country_text)) always_ok))) =
  [[mkPosted (JStr "Ketamine") "US" (JStr "Banned");
    mkPosted (JStr "Ketamine") "CA" (JStr "Approved Medical Use")]].
Proof.
  destruct (searchSubstance_posts_entries parse_server ask_ketamine
              (idle (always_replies (Some by_country_text)) always_ok))
    as (_ & _ & content & parsed & entries & _ & _ & _ & _).
  - vm_compute. discriminate.
  - vm_compute. reflexivity.
Defined.

(** X17.  Failures before the store.  When the substance cannot be
    converted to text, the prompt cannot be built: the route answers 500
    "Server error" with the message of the conversion, and the oracle is
    not asked.  When the call to the oracle fails, whatever its status
    (a rate limit too: there is no retry on this path), the route
    answers 500 "Server error" with the message of the failure, after
    that one call.  When the content of the answer does not parse, it
    answers 500 "Invalid JSON from OpenAI".  In all three cases nothing
    is posted to the store. *)
Theorem searchSubstance_fails_before_store
        JSON_parse (req_body : JSValue) (sw : ServerWorld) :
  nullish req_body = false ->
  falsy (get_prop req_body "substance") = false ->
  let substance := get_prop req_body "substance" in
  let outcome := searchSubstance JSON_parse req_body sw in
  (printable substance = false ->
   fst outcome =
   Returned (mkResponse 500
               (ErrorBody "Server error"
                          (Some "Cannot convert object to primitive value"))) /\
   sv_asked (snd outcome) = sv_asked sw /\
   sv_posted (snd outcome) = sv_posted sw) /\
  (printable substance = true ->
   forall status message,
     sv_oracle sw (List.length (sv_asked sw)) = Fails status message ->
     fst outcome =
     Returned (mkResponse 500 (ErrorBody "Server error" (Some message))) /\
     sv_asked (snd outcome) = sv_asked sw ++ [substance] /\
     sv_posted (snd outcome) = sv_posted sw) /\
  (printable substance = true ->
   forall content,
     sv_oracle sw (List.length (sv_asked sw)) = Replies content ->
     JSON_parse (match content with Some raw => raw | None => "null" end) = None ->
     fst outcome =
     Returned (mkResponse 500 (ErrorBody "Invalid JSON from OpenAI" None)) /\
     sv_asked (snd outcome) = sv_asked sw ++ [substance] /\
     sv_posted (snd outcome) = sv_posted sw).
Proof.
  intros Hbody Hsub substance outcome. subst outcome substance.
  unfold searchSubstance. rewrite Hbody, Hsub. split; [|split].
  - intros Hopaque. rewrite Hopaque. repeat split.
  - intros Hprint status message Ho. rewrite Hprint, Ho. repeat split.
  - intros Hprint content Ho Hp. rewrite Hprint, Ho, Hp. repeat split.
Qed.

Lemma searchSubstance_fails_before_store_witness :
  searchSubstance parse_server ask_opaque
                  (idle (always_replies (Some by_country_text)) always_ok) =
  (Returned (mkResponse 500
               (ErrorBody "Server error"
                          (Some "Cannot convert object to primitive value"))),
   console (ConsoleError (TypeError "Cannot convert object to primitive value"))
           (idle (always_replies (Some by_country_text)) always_ok)) /\
  searchSubstance parse_server ask_ketamine (idle always_429 always_ok) =
  (Returned (mkResponse 500 (ErrorBody "Server error" (Some "Too Many Requests"))),
   console (ConsoleError (ApiError (Some 429%Z) "Too Many Requests"))
           (ask (JStr "Ketamine") (idle always_429 always_ok))) /\
  fst (searchSubstance parse_server ask_ketamine
         (idle (always_replies (Some "Sorry, I cannot help.")) always_ok)) =
  Returned (mkResponse 500 (ErrorBody "Invalid JSON from OpenAI" None)).
Proof.
  split; [|split].
  - destruct (proj1 (searchSubstance_fails_before_store parse_server ask_opaque
                       (idle (always_replies (Some by_country_text)) always_ok)
                       eq_refl eq_refl) eq_refl) as (Hresp & _).
    apply injective_projections; [exact Hresp | reflexivity].
  - destruct (proj1 (proj2 (searchSubstance_fails_before_store parse_server
                              ask_ketamine (idle always_429 always_ok)
                              eq_refl eq_refl))
                    eq_refl (Some 429%Z) "Too Many Requests" eq_refl) as (Hresp & _).
    apply injective_projections; [exact Hresp | reflexivity].
  - exact (proj1 (proj2 (proj2 (searchSubstance_fails_before_store parse_server
                                  ask_ketamine
                                  (idle (always_replies (Some "Sorry, I cannot help."))
                                        always_ok) eq_refl eq_refl))
                        eq_refl (Some "Sorry, I cannot help.") eq_refl eq_refl)).
Defined.

(** X18.  Failures at the store.  For a substance that can be converted
    to text: when the store answers the POST without [ok], the route
    answers 500 "Failed to upsert to Supabase" with the text of the
    store's answer; when the POST itself fails, it answers 500 "Server
    error" with the message of the failure.  In both cases the rows had
    been sent, and the route does not send them again. *)
Theorem searchSubstance_fails_at_store
        JSON_parse (req_body : JSValue) (sw : ServerWorld)
        (content : option string) (parsed : JSValue)
        (entries : list (string * JSValue)) :
  nullish req_body = false ->
  falsy (get_prop req_body "substance") = false ->
  printable (get_prop req_body "substance") = true ->
  sv_oracle sw (List.length (sv_asked sw)) = Replies content ->
  JSON_parse (match content with Some raw => raw | None => "null" end) =
    Some parsed ->
  Object_entries parsed = Some entries ->
  let outcome := searchSubstance JSON_parse req_body sw in
  sv_posted (snd outcome) =
    sv_posted sw ++ [rows_of (get_prop req_body "substance") entries] /\
  (forall text,
      sv_store sw (List.length (sv_posted sw)) = PostRejected text ->
      fst outcome =
      Returned (mkResponse 500
                  (ErrorBody "Failed to upsert to Supabase" (Some text)))) /\
  (forall message,
      sv_store sw (List.length (sv_posted sw)) = PostThrows message ->
      fst outcome =
      Returned (mkResponse 500 (ErrorBody "Server error" (Some message)))) /\
  (sv_store sw (List.length (sv_posted sw)) = PostOk ->
   fst outcome =
   Returned (mkResponse 200 (SuccessBody (List.length entries)))).
Proof.
  intros Hbody Hsub Hprint Ho Hp He outcome. subst outcome.
  unfold searchSubstance. rewrite Hbody, Hsub, Hprint, Ho, Hp, He.
  destruct (sv_store sw (List.length (sv_posted sw))) as [|text|message];
    simpl; (split; [reflexivity|]); repeat split; intros; try discriminate.
  - unfold rows_of. rewrite length_map. reflexivity.
  - congruence.
  - congruence.
Qed.

Lemma searchSubstance_fails_at_store_witness :
  fst (searchSubstance parse_server ask_ketamine
         (idle (always_replies (Some by_country_text))
               (fun _ => PostRejected "duplicate key value"))) =
  Returned (mkResponse 500
              (ErrorBody "Failed to upsert to Supabase"
                         (Some "duplicate key value"))).
Proof.
  exact (proj1 (proj2 (searchSubstance_fails_at_store parse_server ask_ketamine
                         (idle (always_replies (Some by_country_text))
                               (fun _ => PostRejected "duplicate key value"))
                         (Some by_country_text)
                         (JObj [("US", JStr "Banned");
                                ("CA", JStr "Approved Medical Use")])
                         [("US", JStr "Banned"); ("CA", JStr "Approved Medical Use")]
                         eq_refl eq_refl eq_refl eq_refl eq_refl eq_refl))
               "duplicate key value" eq_refl).
Defined.




(** ** Pacing *)

Lemma retryDelay_nonneg (attempt : nat) : (0 <= retryDelay attempt)%Z.
Proof.
  unfold retryDelay. apply Z.min_glb; [|lia].
  assert (0 <= 2 ^ (Z.of_nat attempt - 1))%Z by (apply Z.pow_nonneg; lia).
  lia.
Qed.

Lemma total_nonneg (delays : list Z) :
  Forall (fun d => 0 <= d)%Z delays -> (0 <= total delays)%Z.
Proof.
  induction 1 as [|d delays Hd _ IH]; unfold total in *; simpl; lia.
Qed.

(** A query lets time pass and adds to the sleeps, never the reverse. *)
Lemma getAccessStatuses_time JSON_parse model substances countries w :
  let w' := snd (getAccessStatuses JSON_parse model substances countries w) in
  (clock w <= clock w')%Z /\
  List.length (sleeps w) <= List.length (sleeps w').
Proof.
  destruct (withRetry_loop_trace (mkRequest model substances countries)
              default_maxRetries (S default_maxRetries) 0 w
              ltac:(lia) ltac:(lia))
    as (n & lines & w' & Hrun & _ & _ & _ & _ & Hsleeps & Hclock & _).
  unfold getAccessStatuses, bind, withRetry. rewrite Hrun.
  assert (0 <= total (map retryDelay (seq 1 n)))%Z.
  { apply total_nonneg. apply Forall_forall. intros d Hd.
    apply in_map_iff in Hd. destruct Hd as (a & Ha & _). subst d.
    apply retryDelay_nonneg. }
  destruct (outcome_result _); simpl; rewrite Hsleeps, length_app; split; lia.
Qed.

Lemma queryBatches_paces JSON_parse model SUBSTANCES :
  forall (batches : list (list string)) batchNo allResults w collected w',
    queryBatches JSON_parse model SUBSTANCES batches batchNo allResults w =
    (Returned collected, w') ->
    (clock w + 2000 * Z.of_nat (List.length batches) <= clock w')%Z /\
    List.length (sleeps w) + List.length batches <= List.length (sleeps w').
Proof.
  induction batches as [|batch rest IH];
    intros batchNo allResults w collected w' Hrun.
  - simpl in Hrun. inversion Hrun; subst. simpl. lia.
  - simpl in Hrun. unfold bind at 1 in Hrun. simpl in Hrun.
    unfold bind at 1 in Hrun.
    match type of Hrun with
    | context [getAccessStatuses _ _ _ _ ?x] => set (w1 := x) in *
    end.
    pose proof (getAccessStatuses_time JSON_parse model SUBSTANCES batch w1)
      as Htime.
    destruct (getAccessStatuses JSON_parse model SUBSTANCES batch w1)
      as [[results|err|] w2]; try discriminate.
    simpl in Htime. destruct Htime as [Hclock Hsleeps].
    unfold bind at 1 in Hrun. simpl in Hrun.
    apply IH in Hrun. destruct Hrun as [Hc Hs].
    subst w1. cbn [clock sleeps set_clock set_sleeps set_log logged] in *.
    rewrite length_app in Hs. cbn [List.length] in *.
    rewrite Nat2Z.inj_succ. split; lia.
Qed.

(** X20.  The pace of the loop, whatever the oracle does: when the loop
    of [main] returns, it slept at least once for each batch and at
    least 2000 ms for each batch passed since it started, on top of
    what the retries waited. *)
Theorem collect_paces
        JSON_parse (model : string) (SUBSTANCES COUNTRIES : list string)
        (batchSize : nat) (w w' : World) (allResults : list JSValue) :
  0 < batchSize ->
  collect JSON_parse model SUBSTANCES COUNTRIES batchSize w =
    (Returned allResults, w') ->
  exists batches,
    planBatches (S (List.length COUNTRIES)) COUNTRIES batchSize 0 = Some batches /\
    (clock w + 2000 * Z.of_nat (List.length batches) <= clock w')%Z /\
    List.length (sleeps w) + List.length batches <= List.length (sleeps w').
Proof.
  intros HB Hrun.
  destruct (planBatches_from string COUNTRIES batchSize HB
              (S (List.length COUNTRIES)) 0 ltac:(lia))
    as (batches & Hplan & _).
  exists batches. split; [exact Hplan|].
  unfold collect in Hrun.
  rewrite (collect_loop_walks_plan JSON_parse model SUBSTANCES COUNTRIES
             batchSize HB _ _ _ _ Hplan) in Hrun.
  apply (queryBatches_paces _ _ _ _ _ _ _ _ _ Hrun).
Qed.

Lemma collect_paces_witness :
  let w := fresh (thrice_429 (Some wrapped_text)) no_faults in
  let w' := snd (collect parse_sample "gpt-4o-mini" ["Ketamine"]
                         ["US"; "CA"; "MX"] 2 w) in
  (clock w + 2000 * 2 <= clock w')%Z /\
  sleeps w' = [2000; 4000; 8000; 2000; 2000]%Z.
Proof.
  intros w w'.
  destruct (collect_paces parse_sample "gpt-4o-mini" ["Ketamine"]
              ["US"; "CA"; "MX"] 2 w w'
              [ketamine_us_banned; ketamine_us_banned])
    as (batches & Hplan & Hclock & _).
  - repeat constructor.
  - vm_compute. reflexivity.
  - inversion Hplan; subst batches. split; [exact Hclock|].
    vm_compute. reflexivity.
Defined.
